(** * glimmer-compiler-webpack-plugin: the plugin of [src/index.ts]

    A shallow embedding of the webpack plugin class [GlimmerCompiler] and of
    the functions around it.  JavaScript objects that are shared and mutated
    (the module-level [loaderOptions] array, the option objects handed to the
    loaders, the [dataSegmentModules] arrays, webpack's module objects) live
    in explicit heaps indexed by references; closures are records of what
    they capture; a thrown exception is the [Throw] result. *)

From stdpp Require Import base option list gmap strings fin_maps.

Local Open Scope string_scope.
Local Open Scope list_scope.

(** ** Values *)

(** References to heap objects. *)
Abbreviation loc := nat (only parsing).

(** A [Source] of webpack-sources; only its identity matters here. *)
Abbreviation Source := string (only parsing).

(** A JavaScript [Error], identified by its message. *)
Abbreviation Error := string (only parsing).

(** The outcome of a call that may throw. *)
Inductive Result (A : Type) : Type :=
  | Return (a : A)
  | Throw (e : Error).
Arguments Return {A} a.
Arguments Throw {A} e.

#[global] Instance Result_ret : MRet Result := λ A a, Return a.

#[global] Instance Result_bind : MBind Result := λ A B k r,
  match r with
  | Return a => k a
  | Throw e => Throw e
  end.

(** JavaScript truthiness of an optional string: [undefined] and the empty
    string are falsy. *)
Definition truthy (s : option string) : bool :=
  match s with
  | Some s => negb (String.eqb s "")
  | None => false
  end.

(** [a || b] on optional strings. *)
Definition js_or (a b : option string) : option string :=
  if truthy a then a else b.

(** [`${mode}`] for an optional string. *)
Definition interpolate (s : option string) : string :=
  match s with
  | Some s => s
  | None => "undefined"
  end.

(** [expect] of @glimmer/util: throws on [null] and [undefined] only. *)
Definition expect {A} (val : option A) (message : string) : Result A :=
  match val with
  | Some v => Return v
  | None => Throw message
  end.

(** ** Plugin options and compiler delegates *)

(** The delegate classes a [Constructor<AppCompilerDelegate>] can denote: the
    one built into @glimmer/compiler-delegates that the plugin names, or a
    class supplied by the user. *)
Inductive Constructor :=
  | MUCompilerDelegate
  | UserDelegate (class_name : string).

Module PluginOptions.
Record t := {
  output : string;
  context : option string;
  mode : option string;
  CompilerDelegate : option Constructor;
  builtins : option string;
  mainPath : option string;
}.
End PluginOptions.

Record Locator := { module : string; name : string }.

Record OutputFiles := { dataSegment : string; heapFile : string }.

Record DelegateOptions := {
  projectPath : string;
  outputFiles : OutputFiles;
  builtins : option string;
  mainTemplateLocator : option Locator;
}.

(** The object [new CompilerDelegate(options)] builds. *)
Record Delegate := {
  delegate_class : Constructor;
  delegate_options : DelegateOptions;
}.

(** The object literal [getCompilerDelegateFor] passes to the delegate
    class. *)
Definition delegate_arguments (options : PluginOptions.t) (inputPath : string)
  : DelegateOptions :=
  let locator :=
    if truthy (PluginOptions.mainPath options)
    then (λ mainPath, {| module := mainPath; name := "default" |})
           <$> PluginOptions.mainPath options
    else None in
  {| projectPath := inputPath;
     outputFiles := {| dataSegment := "table.js"; heapFile := "templates.gbx" |};
     builtins := PluginOptions.builtins options;
     mainTemplateLocator := locator |}.

(** [new CompilerDelegate(arguments)].  The delegate classes are not the
    plugin's: [new_error] gives the error the constructor of a class throws
    on given arguments, if it throws. *)
Definition new_CompilerDelegate
    (new_error : Constructor → DelegateOptions → option Error)
    (CompilerDelegate : Constructor) (arguments : DelegateOptions) : Result Delegate :=
  match new_error CompilerDelegate arguments with
  | Some e => Throw e
  | None => Return {| delegate_class := CompilerDelegate;
                      delegate_options := arguments |}
  end.

(** [getCompilerDelegateFor]. *)
Definition getCompilerDelegateFor
    (new_error : Constructor → DelegateOptions → option Error)
    (options : PluginOptions.t) (inputPath : string) : Result Delegate :=
  CompilerDelegate ←
    match PluginOptions.CompilerDelegate options with
    | Some C => Return C
    | None =>
        if decide (PluginOptions.mode options = Some "module-unification")
        then Return MUCompilerDelegate
        else Throw ("Unrecognized compiler mode " +:+
                    interpolate (PluginOptions.mode options))
    end;
  new_CompilerDelegate new_error CompilerDelegate (delegate_arguments options inputPath).

(** ** The bundle *)

(** Modelled from the spec: the [Bundle] class of [./bundle], which the plugin
    imports and which is not among the sources.  The spec's Bundle Facade:
    "given a project root, a compiler delegate, and an optional entry-point
    path, accumulates registered templates/ASTs and produces, on demand, a
    (bytecode, dataSegmentSource) pair".  Scopes and AST programs are kept as
    opaque strings; what [compile] produces is a parameter of the session
    code below. *)
Record Bundle := {
  inputPath : string;
  delegate : Delegate;
  mainPath : option string;
  templates : list (string * string * string);
  asts : list (string * string);
}.

Definition new_Bundle (inputPath : string) (delegate : Delegate)
    (mainPath : option string) : Bundle :=
  {| inputPath := inputPath; delegate := delegate; mainPath := mainPath;
     templates := []; asts := [] |}.

Definition Bundle_add (path template scope : string) (b : Bundle) : Bundle :=
  {| inputPath := inputPath b; delegate := delegate b; mainPath := mainPath b;
     templates := templates b ++ [(path, template, scope)]; asts := asts b |}.

Definition Bundle_addAST (path ast : string) (b : Bundle) : Bundle :=
  {| inputPath := inputPath b; delegate := delegate b; mainPath := mainPath b;
     templates := templates b; asts := asts b ++ [(path, ast)] |}.

(** [getBundleFor]. *)
Definition getBundleFor (new_error : Constructor → DelegateOptions → option Error)
    (options : PluginOptions.t) (inputPath : string) : Result Bundle :=
  delegate ← getCompilerDelegateFor new_error options inputPath;
  Return (new_Bundle inputPath delegate (PluginOptions.mainPath options)).

(** ** The loader options shared between plugin instances *)

(** The [options] object of a loader rule: [{}] from the static loaders,
    [{ compiler }] once a plugin instance is attached to it. *)
Record LoaderOptions := { compiler : option loc }.

(** The JavaScript heap as far as the plugin class reaches into it. *)
Record Store := {
  loaderOptions : loc;                     (* the module-level [let loaderOptions] *)
  optArrays : gmap loc (list loc);         (* arrays of loader option objects *)
  optObjs : gmap loc LoaderOptions;        (* loader option objects *)
  modArrays : gmap loc (list loc);         (* [Module[]] arrays *)
  instances : gset loc;                    (* plugin instances allocated so far *)
}.

(** The heap when the module has been loaded: [let loaderOptions = []]. *)
Definition initial_store : Store :=
  {| loaderOptions := 0;
     optArrays := {[ 0 := [] ]};
     optObjs := ∅;
     modArrays := ∅;
     instances := ∅ |}.

(** Reading an array through a reference. *)
Definition array (h : gmap loc (list loc)) (a : loc) : list loc :=
  default [] (h !! a).

(** [a.push(x)]. *)
Definition push (a x : loc) (h : gmap loc (list loc)) : gmap loc (list loc) :=
  <[a := array h a ++ [x]]> h.

(** The fields of a [GlimmerCompiler] instance. *)
Module This.
Record t := {
  self : loc;
  options : PluginOptions.t;
  outputFile : string;
  CompilerDelegate : option Constructor;
  mode : option string;
  dataSegmentModules : loc;
  loaderOptions : loc;
  bundle : option Bundle;
}.
End This.

(** What a loader factory returns. *)
Record Rule := { loader_file : string; rule_options : loc }.

(** [loader]: the static factories [GlimmerCompiler.component()] and the
    like.  [require.resolve] is left as the request it is given. *)
Definition loader (loaderPath : string) (σ : Store) : Rule * Store :=
  let options := fresh (dom (optObjs σ)) in
  ({| loader_file := loaderPath; rule_options := options |},
   {| loaderOptions := loaderOptions σ;
      optArrays := push (loaderOptions σ) options (optArrays σ);
      optObjs := <[options := {| compiler := None |}]> (optObjs σ);
      modArrays := modArrays σ;
      instances := instances σ |}).

(** [instanceLoader]: the factories of an instance. *)
Definition instanceLoader (loaderPath : string) (compiler_ : This.t) (σ : Store)
  : Rule * Store :=
  let options := fresh (dom (optObjs σ)) in
  ({| loader_file := loaderPath; rule_options := options |},
   {| loaderOptions := loaderOptions σ;
      optArrays := push (This.loaderOptions compiler_) options (optArrays σ);
      optObjs := <[options := {| compiler := Some (This.self compiler_) |}]> (optObjs σ);
      modArrays := modArrays σ;
      instances := instances σ |}).

(** [opts.compiler = this] for every [opts] of the list. *)
Definition attach (this : loc) (opts : list loc) (objs : gmap loc LoaderOptions)
  : gmap loc LoaderOptions :=
  foldl (λ objs o, <[o := {| compiler := Some this |}]> objs) objs opts.

(** [new GlimmerCompiler(options)]. *)
Definition constructor (options : PluginOptions.t) (σ : Store)
  : Result (This.t * Store) :=
  let this := fresh (instances σ) in
  let dataSegmentModules := fresh (dom (modArrays σ)) in
  if truthy (PluginOptions.mode options)
     && bool_decide (is_Some (PluginOptions.CompilerDelegate options))
  then Throw "You can provide a mode or a compiler delegate, but not both."
  else
    let emptied := fresh (dom (optArrays σ)) in
    Return
      ({| This.self := this;
          This.options := options;
          This.outputFile := PluginOptions.output options;
          This.CompilerDelegate := PluginOptions.CompilerDelegate options;
          This.mode := None;
          This.dataSegmentModules := dataSegmentModules;
          This.loaderOptions := loaderOptions σ;
          This.bundle := None |},
       {| loaderOptions := emptied;
          optArrays := <[emptied := []]> (optArrays σ);
          optObjs := attach this (array (optArrays σ) (loaderOptions σ)) (optObjs σ);
          modArrays := <[dataSegmentModules := []]> (modArrays σ);
          instances := {[this]} ∪ instances σ |}).

(** The static loader calls of a configuration file, in order. *)
Definition loaders (paths : list string) (σ : Store) : Store :=
  foldl (λ σ p, (loader p σ).2) σ paths.

(** ** The host: compiler, compilation and modules *)

(** A webpack [Module], with the fields the plugin reads or writes. *)
Record Module_ := {
  resource : string;
  __table : option Source;
  _source : option Source;
  used : option bool;
  usedExports : option (list string);
}.

#[global] Instance Module_inhabited : Inhabited Module_ :=
  populate {| resource := ""; __table := None; _source := None;
              used := None; usedExports := None |}.

(** A webpack [Compilation], as the plugin sees it.  The handlers the plugin
    plugs are closures; each is recorded by what it captures. *)
Record Compilation := {
  modules : list loc;
  assets : gmap string Source;
  finish_calls : nat;                  (* calls of [compilation.finish()] *)
  rebuildModule_calls : list loc;      (* calls of [compilation.rebuildModule] *)
  additional_assets : list Source;     (* handlers plugged, by captured [bytecode] *)
  need_additional_seal : nat;          (* handlers plugged *)
}.

(** A webpack [Compiler]: its configured context and the handlers plugged on
    'this-compilation', each recorded by the [inputPath] it captures. *)
Record Compiler := {
  compiler_context : option string;
  this_compilation_handlers : list string;
}.

(** [apply]. *)
Definition apply (this : This.t) (compiler : Compiler) : Result Compiler :=
  inputPath ←
    expect (js_or (PluginOptions.context (This.options this))
                  (compiler_context compiler))
           "expected compiler to have a context";
  Return {| compiler_context := compiler_context compiler;
            this_compilation_handlers :=
              this_compilation_handlers compiler ++ [inputPath] |}.

(** ** Build sessions *)

(** Everything that outlives a build: the heap, the plugin instance, the
    host's module objects, and a count of the calls of [Bundle.compile]. *)
Record World := {
  store : Store;
  this : This.t;
  mods : gmap loc Module_;
  compile_calls : nat;
}.

(** The closure the 'this-compilation' handler builds for one compilation:
    the compilation it was handed and its two local variables.  The
    'optimize-tree' handler it plugs is [optimize_tree] below. *)
Record Session := {
  compilation : Compilation;
  dataSegmentModules : loc;
  resealed : bool;
}.

Record Build := { world : World; session : Session }.

(** A promise. *)
Inductive Promise :=
  | Pending
  | Fulfilled
  | Rejected (e : Error).

(** What one run of the 'optimize-tree' handler creates: the promises of
    [rebuildModule] in the order of the list, the promise of
    [Promise.all(promises).then(() => undefined)] when there is one, and the
    calls its callback [cb] has received. *)
Record Phase := {
  promises : list Promise;
  all : option Promise;
  cb_calls : list (option Error);
}.

Definition is_fulfilled (p : Promise) : bool :=
  match p with Fulfilled => true | _ => false end.

(** [.then(cb, cb)]: the reaction to a promise settling. *)
Definition then_cb (p : Promise) : list (option Error) :=
  match p with
  | Pending => []
  | Fulfilled => [None]
  | Rejected e => [Some e]
  end.

(** [Promise.all] while none of the promises has been rejected: fulfilled
    when every promise is, and so at once for the empty list. *)
Definition Promise_all (ps : list Promise) : Promise :=
  if forallb is_fulfilled ps then Fulfilled else Pending.

(** The host calls the callback of the [i]-th [compilation.rebuildModule]
    request of a phase with [err]: [if (err) reject(err) else resolve()].  A
    promise settles once; later calls on it change nothing.  The first
    rejection rejects the promise of [Promise.all]. *)
Definition rebuilt (i : nat) (err : option Error) (p : Phase) : Phase :=
  match promises p !! i with
  | Some Pending =>
      let settled := match err with Some e => Rejected e | None => Fulfilled end in
      let ps := <[i := settled]> (promises p) in
      match all p with
      | Some Pending =>
          let a := match settled with
                   | Rejected e => Rejected e
                   | _ => Promise_all ps
                   end in
          {| promises := ps; all := Some a; cb_calls := cb_calls p ++ then_cb a |}
      | a => {| promises := ps; all := a; cb_calls := cb_calls p |}
      end
  | _ => p
  end.

(** The phase whose callback is chained on [all] by [.then(cb, cb)]. *)
Definition chained (promises : list Promise) (all : Promise) : Phase :=
  {| promises := promises; all := Some all; cb_calls := then_cb all |}.

(** The phase of a handler that called [cb()] itself. *)
Definition called_back : Phase :=
  {| promises := []; all := None; cb_calls := [None] |}.

(** A run of host callbacks, in the order the host makes them. *)
Definition callbacks (evs : list (nat * option Error)) (p : Phase) : Phase :=
  foldl (λ p ev, rebuilt ev.1 ev.2 p) p evs.

(** Field updates. *)
Definition with_mods (f : gmap loc Module_ → gmap loc Module_) (b : Build) : Build :=
  {| world := {| store := store (world b); this := this (world b);
                 mods := f (mods (world b));
                 compile_calls := compile_calls (world b) |};
     session := session b |}.

Definition with_compilation (f : Compilation → Compilation) (b : Build) : Build :=
  {| world := world b;
     session := {| compilation := f (compilation (session b));
                   dataSegmentModules := dataSegmentModules (session b);
                   resealed := resealed (session b) |} |}.

Definition with_resealed (r : bool) (b : Build) : Build :=
  {| world := world b;
     session := {| compilation := compilation (session b);
                   dataSegmentModules := dataSegmentModules (session b);
                   resealed := r |} |}.

Definition count_compile (b : Build) : Build :=
  {| world := {| store := store (world b); this := this (world b);
                 mods := mods (world b);
                 compile_calls := S (compile_calls (world b)) |};
     session := session b |}.

(** [rebuildModule]: asks the host to rebuild; the promise it returns is
    pending until the host calls back. *)
Definition rebuildModule (module : loc) (b : Build) : Build :=
  with_compilation (λ c,
    {| modules := modules c; assets := assets c; finish_calls := finish_calls c;
       rebuildModule_calls := rebuildModule_calls c ++ [module];
       additional_assets := additional_assets c;
       need_additional_seal := need_additional_seal c |}) b.

(** [module.__table = source]. *)
Definition set_table (source : Source) (m : Module_) : Module_ :=
  {| resource := resource m; __table := Some source; _source := _source m;
     used := used m; usedExports := usedExports m |}.

(** [populateDataSegment]. *)
Definition populateDataSegment (module : loc) (source : Source) (b : Build) : Build :=
  rebuildModule module
    (with_mods (λ h, <[module := set_table source (h !!! module)]> h) b).

(** [rewriteDataSegmentModules]: the state after the synchronous part, the
    promises of the list and the promise returned. *)
Definition rewriteDataSegmentModules (modules : list loc) (source : Source)
    (b : Build) : Build * list Promise * Promise :=
  let b' := foldl (λ b m, populateDataSegment m source b) b modules in
  let promises := (λ _, Pending) <$> modules in
  (b', promises, Promise_all promises).

(** [mod.used = null; mod.usedExports = null]. *)
Definition clear_usage (m : Module_) : Module_ :=
  {| resource := resource m; __table := __table m; _source := _source m;
     used := None; usedExports := None |}.

(** [resetCompilation]. *)
Definition resetCompilation (b : Build) : Build :=
  let b' :=
    with_mods (λ h,
      foldl (λ h mod_, <[mod_ := clear_usage (h !!! mod_)]> h) h
            (modules (compilation (session b)))) b in
  with_compilation (λ c,
    {| modules := modules c; assets := assets c;
       finish_calls := S (finish_calls c);
       rebuildModule_calls := rebuildModule_calls c;
       additional_assets := additional_assets c;
       need_additional_seal := need_additional_seal c |}) b'.

(** The handler plugged on 'need-additional-seal'. *)
Definition need_additional_seal_handler (b : Build) : bool * Build :=
  if resealed (session b) then (false, b)
  else (true, with_resealed true (resetCompilation b)).

(** The handler plugged on 'additional-assets', with the [bytecode] it
    captured. *)
Definition additional_assets_handler (bytecode : Source) (b : Build) : Build :=
  let output := PluginOptions.output (This.options (this (world b))) in
  with_compilation (λ c,
    {| modules := modules c; assets := <[output := bytecode]> (assets c);
       finish_calls := finish_calls c;
       rebuildModule_calls := rebuildModule_calls c;
       additional_assets := additional_assets c;
       need_additional_seal := need_additional_seal c |}) b.

Definition plug_additional_assets (bytecode : Source) (b : Build) : Build :=
  with_compilation (λ c,
    {| modules := modules c; assets := assets c; finish_calls := finish_calls c;
       rebuildModule_calls := rebuildModule_calls c;
       additional_assets := additional_assets c ++ [bytecode];
       need_additional_seal := need_additional_seal c |}) b.

Definition plug_need_additional_seal (b : Build) : Build :=
  with_compilation (λ c,
    {| modules := modules c; assets := assets c; finish_calls := finish_calls c;
       rebuildModule_calls := rebuildModule_calls c;
       additional_assets := additional_assets c;
       need_additional_seal := S (need_additional_seal c) |}) b.

(** Discovery: what the loaders call on the instance while the host
    processes modules. *)

(** [addDataSegmentModule]. *)
Definition addDataSegmentModule (module : loc) (w : World) : World :=
  {| store :=
       {| loaderOptions := loaderOptions (store w);
          optArrays := optArrays (store w);
          optObjs := optObjs (store w);
          modArrays := push (This.dataSegmentModules (this w)) module
                            (modArrays (store w));
          instances := instances (store w) |};
     this := this w; mods := mods w; compile_calls := compile_calls w |}.

Definition with_bundle (bundle : option Bundle) (w : World) : World :=
  {| store := store w;
     this := {| This.self := This.self (this w);
                This.options := This.options (this w);
                This.outputFile := This.outputFile (this w);
                This.CompilerDelegate := This.CompilerDelegate (this w);
                This.mode := This.mode (this w);
                This.dataSegmentModules := This.dataSegmentModules (this w);
                This.loaderOptions := This.loaderOptions (this w);
                This.bundle := bundle |};
     mods := mods w; compile_calls := compile_calls w |}.

(** Reading a property of [this.bundle] while it is [undefined]. *)
Definition no_bundle (property : string) : Error :=
  "Cannot read property '" +:+ property +:+ "' of undefined".

(** [addComponent]. *)
Definition addComponent (path template scope : string) (w : World)
  : Result unit * World :=
  match This.bundle (this w) with
  | Some bundle => (Return (), with_bundle (Some (Bundle_add path template scope bundle)) w)
  | None => (Throw (no_bundle "add"), w)
  end.

(** [addAST]. *)
Definition addAST (path ast : string) (w : World) : Result unit * World :=
  match This.bundle (this w) with
  | Some bundle => (Return (), with_bundle (Some (Bundle_addAST path ast bundle)) w)
  | None => (Throw (no_bundle "addAST"), w)
  end.

(** [this.dataSegmentModules = []]. *)
Definition reset_dataSegmentModules (w : World) : loc * World :=
  let fresh_array := fresh (dom (modArrays (store w))) in
  (fresh_array,
   {| store :=
        {| loaderOptions := loaderOptions (store w);
           optArrays := optArrays (store w);
           optObjs := optObjs (store w);
           modArrays := <[fresh_array := []]> (modArrays (store w));
           instances := instances (store w) |};
      this := {| This.self := This.self (this w);
                 This.options := This.options (this w);
                 This.outputFile := This.outputFile (this w);
                 This.CompilerDelegate := This.CompilerDelegate (this w);
                 This.mode := This.mode (this w);
                 This.dataSegmentModules := fresh_array;
                 This.loaderOptions := This.loaderOptions (this w);
                 This.bundle := This.bundle (this w) |};
      mods := mods w; compile_calls := compile_calls w |}).

(** The handler [apply] plugs on 'this-compilation', with the [inputPath] it
    captured.  It returns the closure of the 'optimize-tree' handler it plugs
    on the compilation; when it throws, nothing is plugged. *)
Definition this_compilation
    (new_error : Constructor → DelegateOptions → option Error)
    (inputPath : string) (compilation : Compilation)
    (w : World) : Result Session * World :=
  let '(dataSegmentModules, w1) := reset_dataSegmentModules w in
  match getBundleFor new_error (This.options (this w1)) inputPath with
  | Throw e => (Throw e, w1)
  | Return bundle =>
      (Return {| compilation := compilation;
                 dataSegmentModules := dataSegmentModules;
                 resealed := false |},
       with_bundle (Some bundle) w1)
  end.

Section Compile.

(** [Bundle.compile]: the [{ bytecode, data }] it returns, or the error it
    throws. *)
Variable compile : Bundle → Result (Source * Source).

(** The handler plugged on 'optimize-tree': the outcome of its synchronous
    part, with the phase it leaves to the host's callbacks. *)
Definition optimize_tree (b : Build) : Result Phase * Build :=
  if resealed (session b)
  then (Return called_back, b)
  else
    match This.bundle (this (world b)) with
    | None => (Throw (no_bundle "compile"), b)
    | Some bundle =>
        let b := count_compile b in
        match compile bundle with
        | Throw e => (Throw e, b)
        | Return (bytecode, data) =>
            let '(b, promises, all) :=
              rewriteDataSegmentModules
                (array (modArrays (store (world b))) (dataSegmentModules (session b)))
                data b in
            let b := plug_additional_assets bytecode b in
            let b := plug_need_additional_seal b in
            (Return (chained promises all), b)
        end
    end.

End Compile.

(** ** The host's seal loop

    How webpack's [Compilation.seal] drives the hooks the plugin uses: it
    runs its own steps on the modules, which recompute their usage marks,
    fires 'optimize-tree' and waits for its callback; on an error it gives
    the build up; otherwise it fires 'additional-assets', asks
    'need-additional-seal', and on a true answer unseals and seals again. *)

Inductive Outcome :=
  | Done                  (* sealed *)
  | Failed (e : Error)    (* the phase callback received [e] *)
  | Crashed (e : Error)   (* a handler threw [e] *)
  | Stalled               (* the phase callback was never called *)
  | Unbounded.            (* more passes were asked for than allowed *)

(** 'additional-assets': every handler runs, in the order plugged. *)
Definition fire_additional_assets (b : Build) : Build :=
  foldl (λ b bytecode, additional_assets_handler bytecode b) b
        (additional_assets (compilation (session b))).

(** 'need-additional-seal' bails on the first handler whose result is not
    [undefined]; the plugin's handler always answers, so only the first one
    plugged runs. *)
Definition fire_need_additional_seal (b : Build) : bool * Build :=
  match need_additional_seal (compilation (session b)) with
  | 0 => (false, b)
  | S _ => need_additional_seal_handler b
  end.

Section Host.

Variable compile : Bundle → Result (Source * Source).

(** What the host's [unseal] leaves of the asset map. *)
Variable unseal : gmap string Source → gmap string Source.

Definition unseal_compilation (b : Build) : Build :=
  with_compilation (λ c,
    {| modules := modules c; assets := unseal (assets c);
       finish_calls := finish_calls c;
       rebuildModule_calls := rebuildModule_calls c;
       additional_assets := additional_assets c;
       need_additional_seal := need_additional_seal c |}) b.

(** What the host's own steps of a pass, which come before 'optimize-tree',
    make of the module objects: among them the marking of [used] and
    [usedExports]. *)
Variable flag_usage : gmap loc Module_ → gmap loc Module_.

Definition host_steps (b : Build) : Build := with_mods flag_usage b.

(** [seal], with a bound on the passes and, for each pass, the callbacks
    the host makes for the rebuilds requested in it. *)
Fixpoint seal (passes : nat) (rebuilds : list (list (nat * option Error)))
    (b : Build) : Outcome * Build :=
  match passes with
  | 0 => (Unbounded, b)
  | S passes =>
      match optimize_tree compile (host_steps b) with
      | (Throw e, b) => (Crashed e, b)
      | (Return phase, b) =>
          match cb_calls (callbacks (hd [] rebuilds) phase) with
          | [] => (Stalled, b)
          | Some e :: _ => (Failed e, b)
          | None :: _ =>
              let b := fire_additional_assets b in
              let '(again, b) := fire_need_additional_seal b in
              if again
              then seal passes (tl rebuilds) (unseal_compilation b)
              else (Done, b)
          end
      end
  end.

End Host.

(** ** Traces of a session

    Whatever can happen to a session between two 'this-compilation' events,
    in any order: the host firing its hooks and unsealing, and the loaders
    registering what they discover. *)

Inductive Discovery :=
  | DataSegmentModule (module : loc)
  | Component (path template scope : string)
  | AST (path ast : string).

Definition discover (d : Discovery) (w : World) : World :=
  match d with
  | DataSegmentModule module => addDataSegmentModule module w
  | Component path template scope => (addComponent path template scope w).2
  | AST path ast => (addAST path ast w).2
  end.

Definition discovery (ds : list Discovery) (w : World) : World :=
  foldl (λ w d, discover d w) w ds.

Inductive Event :=
  | OptimizeTree
  | AdditionalAssets
  | NeedAdditionalSeal
  | Unseal
  | Discover (d : Discovery).

Section Trace.

Variable compile : Bundle → Result (Source * Source).
Variable unseal : gmap string Source → gmap string Source.

(** One event: the answers the 'need-additional-seal' handler gave during
    it (none when it did not run), and the state after. *)
Definition step (ev : Event) (b : Build) : list bool * Build :=
  match ev with
  | OptimizeTree => ([], (optimize_tree compile b).2)
  | AdditionalAssets => ([], fire_additional_assets b)
  | NeedAdditionalSeal =>
      match need_additional_seal (compilation (session b)) with
      | 0 => ([], b)
      | S _ => let '(r, b) := need_additional_seal_handler b in ([r], b)
      end
  | Unseal => ([], unseal_compilation unseal b)
  | Discover d => ([], {| world := discover d (world b); session := session b |})
  end.

(** The answers of the handler over a trace, in order, and the final
    state. *)
Fixpoint trace (evs : list Event) (b : Build) : list bool * Build :=
  match evs with
  | [] => ([], b)
  | ev :: evs =>
      let '(rs, b) := step ev b in
      let '(rs', b) := trace evs b in
      (rs ++ rs', b)
  end.

End Trace.

(** ** Configuration errors *)

(** The options [getCompilerDelegateFor] or the constructor rejects: a mode
    together with a delegate class, or no delegate class and a mode that
    names no built-in delegate. *)
Definition misconfigured (options : PluginOptions.t) : Prop :=
  (truthy (PluginOptions.mode options) = true
   ∧ is_Some (PluginOptions.CompilerDelegate options))
  ∨ (PluginOptions.CompilerDelegate options = None
     ∧ PluginOptions.mode options ≠ Some "module-unification").

(** The error is raised by [new GlimmerCompiler(options)] or, failing that,
    by [apply]. *)
Definition raised_at_setup (options : PluginOptions.t) (σ : Store)
    (compiler : Compiler) : Prop :=
  match constructor options σ with
  | Throw _ => True
  | Return (this, _) =>
      match apply this compiler with
      | Throw _ => True
      | Return _ => False
      end
  end.

(** ** Sample inputs *)

Definition bare_compiler : Compiler :=
  {| compiler_context := Some "/work"; this_compilation_handlers := [] |}.


Definition basic_options : PluginOptions.t :=
  {| PluginOptions.output := "templates.gbx";
     PluginOptions.context := Some "/app";
     PluginOptions.mode := Some "basic";
     PluginOptions.CompilerDelegate := None;
     PluginOptions.builtins := None;
     PluginOptions.mainPath := None |}.

Definition no_mode_options : PluginOptions.t :=
  {| PluginOptions.output := "templates.gbx";
     PluginOptions.context := Some "/app";
     PluginOptions.mode := None;
     PluginOptions.CompilerDelegate := None;
     PluginOptions.builtins := None;
     PluginOptions.mainPath := None |}.

Definition mu_options : PluginOptions.t :=
  {| PluginOptions.output := "templates.gbx";
     PluginOptions.context := Some "/app";
     PluginOptions.mode := Some "module-unification";
     PluginOptions.CompilerDelegate := None;
     PluginOptions.builtins := None;
     PluginOptions.mainPath := Some "src/ui/components/Main/template.hbs" |}.

Definition both_options : PluginOptions.t :=
  {| PluginOptions.output := "templates.gbx";
     PluginOptions.context := Some "/app";
     PluginOptions.mode := Some "module-unification";
     PluginOptions.CompilerDelegate := Some (UserDelegate "MyDelegate");
     PluginOptions.builtins := None;
     PluginOptions.mainPath := None |}.

(** The heap after a configuration file has called two static loaders. *)
Definition two_loaders_store : Store :=
  loaders ["./loaders/component"; "./loaders/data"] initial_store.

(** Delegate classes whose constructor never throws, and delegate classes
    that do not find the project. *)
Definition no_error (C : Constructor) (arguments : DelegateOptions) : option Error :=
  None.

Definition missing_project (C : Constructor) (arguments : DelegateOptions)
  : option Error :=
  Some ("no project at " +:+ projectPath arguments).

Definition empty_compilation : Compilation :=
  {| modules := [10; 11; 12]; assets := ∅; finish_calls := 0;
     rebuildModule_calls := []; additional_assets := [];
     need_additional_seal := 0 |}.

Definition sample_module (resource : string) : Module_ :=
  {| resource := resource; __table := None; _source := None;
     used := Some true; usedExports := Some ["default"] |}.

(** A plugin instance in mode 'module-unification' before its first build,
    and the three modules of the host. *)
Definition sample_world : World :=
  {| store := {| loaderOptions := 1; optArrays := {[ 0 := []; 1 := [] ]};
                 optObjs := ∅; modArrays := {[ 0 := [] ]}; instances := {[ 0 ]} |};
     this := {| This.self := 0; This.options := mu_options;
                This.outputFile := "templates.gbx";
                This.CompilerDelegate := None; This.mode := None;
                This.dataSegmentModules := 0; This.loaderOptions := 0;
                This.bundle := None |};
     mods := {[ 10 := sample_module "table.js";
                11 := sample_module "other-table.js";
                12 := sample_module "main.ts" ]};
     compile_calls := 0 |}.

(** The build of the spec's scenario once discovery is over: a session has
    started on [sample_world], and the loaders have registered one component
    and the placeholders 10 and 11. *)
Definition sample_build : Build :=
  match this_compilation no_error "/app" empty_compilation sample_world with
  | (Return s, w) =>
      {| world := discovery [Component "ui/components/Main" "<h1>Hi</h1>" "{}";
                             DataSegmentModule 10; DataSegmentModule 11] w;
         session := s |}
  | (Throw _, w) =>
      {| world := w;
         session := {| compilation := empty_compilation;
                       dataSegmentModules := 0; resealed := false |} |}
  end.

(** A bundle compiler that succeeds, and one that fails. *)
Definition sample_compile (b : Bundle) : Result (Source * Source) :=
  Return ("bytecodeBlob", "var data = 1;").

Definition failing_compile (b : Bundle) : Result (Source * Source) :=
  Throw "compile failed".

(** webpack's [unseal] starts the asset map afresh. *)
Definition sample_unseal (assets : gmap string Source) : gmap string Source := ∅.

(** A host that marks every module as used. *)
Definition mark_used (h : gmap loc Module_) : gmap loc Module_ :=
  (λ m, {| resource := resource m; __table := __table m; _source := _source m;
           used := Some true; usedExports := Some ["default"] |}) <$> h.

(** A session: the host seals, polls the guard a second time, and the
    loaders go on registering. *)
Definition sample_events : list Event :=
  [OptimizeTree; AdditionalAssets; NeedAdditionalSeal; Unseal;
   Discover (DataSegmentModule 12);
   OptimizeTree; AdditionalAssets; NeedAdditionalSeal; NeedAdditionalSeal].

(** The claim that a failing [Bundle.compile] reaches the host through the
    callback of the phase: the handler returns, and [cb] is called with the
    error. *)
Definition surfaced_through_callback (compile : Bundle → Result (Source * Source))
    (b : Build) (e : Error) : Prop :=
  ∃ phase b', optimize_tree compile b = (Return phase, b')
              ∧ cb_calls phase = [Some e].

(** ** The loader factories of the class *)

(** The static factories, for configuration files that build their rules
    before they construct the plugin. *)
Module Static.
Definition component : Store → Rule * Store := loader "./loaders/component".
Definition template : Store → Rule * Store := loader "./loaders/template".
Definition ast : Store → Rule * Store := loader "./loaders/ast".
Definition data : Store → Rule * Store := loader "./loaders/data".
End Static.

(** The factories of an instance. *)
Module Instance.
Definition component (this : This.t) : Store → Rule * Store :=
  instanceLoader "./loaders/component" this.
Definition template (this : This.t) : Store → Rule * Store :=
  instanceLoader "./loaders/template" this.
Definition ast (this : This.t) : Store → Rule * Store :=
  instanceLoader "./loaders/ast" this.
Definition data (this : This.t) : Store → Rule * Store :=
  instanceLoader "./loaders/data" this.
End Instance.

(** [compiler.plugin('this-compilation', handler)] with the [inputPath] the
    handler captures. *)
Definition plug_this_compilation (inputPath : string) (compiler : Compiler) : Compiler :=
  {| compiler_context := compiler_context compiler;
     this_compilation_handlers := this_compilation_handlers compiler ++ [inputPath] |}.

(** The placeholders among what the loaders register, in order. *)
Definition placeholders_of (ds : list Discovery) : list loc :=
  omap (λ d, match d with DataSegmentModule m => Some m | _ => None end) ds.

(** Options with a delegate class of the user and an empty mode. *)
Definition delegate_options_sample : PluginOptions.t :=
  {| PluginOptions.output := "templates.gbx";
     PluginOptions.context := Some "";
     PluginOptions.mode := Some "";
     PluginOptions.CompilerDelegate := Some (UserDelegate "MyDelegate");
     PluginOptions.builtins := Some "builtins";
     PluginOptions.mainPath := Some "" |}.

(** The instance [new GlimmerCompiler(mu_options)] builds on
    [two_loaders_store], and the heap it leaves. *)
Definition sample_instance : This.t :=
  match constructor mu_options two_loaders_store with
  | Return (this, _) => this
  | Throw _ => this sample_world
  end.

Definition sample_store : Store :=
  match constructor mu_options two_loaders_store with
  | Return (_, σ) => σ
  | Throw _ => two_loaders_store
  end.

(** The world of [sample_instance] before its first build. *)
Definition fresh_world : World :=
  {| store := sample_store; this := sample_instance;
     mods := mods sample_world; compile_calls := 0 |}.

(** * Properties *)

(** ** Configuration *)

Lemma truthy_Some (s : option string) : truthy s = true → is_Some s.
Proof. destruct s; [eauto | discriminate]. Qed.

Lemma getCompilerDelegateFor_unrecognized
    (new_error : Constructor → DelegateOptions → option Error)
    (options : PluginOptions.t) (inputPath : string) :
  PluginOptions.CompilerDelegate options = None →
  PluginOptions.mode options ≠ Some "module-unification" →
  getCompilerDelegateFor new_error options inputPath =
    Throw ("Unrecognized compiler mode " +:+ interpolate (PluginOptions.mode options)).
Proof.
  intros Hnone Hmode. unfold getCompilerDelegateFor. rewrite Hnone.
  destruct (decide _) as [Heq | _]; [by destruct Hmode | reflexivity].
Qed.

Lemma getCompilerDelegateFor_module_unification
    (new_error : Constructor → DelegateOptions → option Error)
    (options : PluginOptions.t) (inputPath : string) :
  PluginOptions.CompilerDelegate options = None →
  PluginOptions.mode options = Some "module-unification" →
  getCompilerDelegateFor new_error options inputPath =
    new_CompilerDelegate new_error MUCompilerDelegate
      (delegate_arguments options inputPath).
Proof.
  intros Hnone Hmode. unfold getCompilerDelegateFor. rewrite Hnone.
  destruct (decide _) as [_ | Hne]; [reflexivity | by destruct Hne].
Qed.

Lemma new_CompilerDelegate_Return
    (new_error : Constructor → DelegateOptions → option Error)
    (C : Constructor) (arguments : DelegateOptions) (d : Delegate) :
  new_CompilerDelegate new_error C arguments = Return d ↔
    new_error C arguments = None
    ∧ d = {| delegate_class := C; delegate_options := arguments |}.
Proof.
  unfold new_CompilerDelegate. destruct (new_error C arguments).
  - split; [discriminate | by intros [? _]].
  - split; [by intros [= <-] | by intros [_ ->]].
Qed.

(** C9: with no [CompilerDelegate] option, every mode other than
    'module-unification', 'basic' and a missing mode included, makes
    [getCompilerDelegateFor] throw "Unrecognized compiler mode" followed by
    the mode, before any delegate class is instantiated.  The mode
    'module-unification' is the only one that resolves to a delegate class,
    the built-in [MUCompilerDelegate]: the result is then that of
    [new MUCompilerDelegate] on the project, a delegate of that class or the
    error its constructor throws. *)
Theorem getCompilerDelegateFor_mode
    (new_error : Constructor → DelegateOptions → option Error)
    (options : PluginOptions.t) (inputPath : string) :
  PluginOptions.CompilerDelegate options = None →
  (PluginOptions.mode options ≠ Some "module-unification" →
     getCompilerDelegateFor new_error options inputPath =
       Throw ("Unrecognized compiler mode " +:+ interpolate (PluginOptions.mode options)))
  ∧ (PluginOptions.mode options = Some "module-unification" →
       getCompilerDelegateFor new_error options inputPath =
         new_CompilerDelegate new_error MUCompilerDelegate
           (delegate_arguments options inputPath)
       ∧ (new_error MUCompilerDelegate (delegate_arguments options inputPath) = None →
          ∃ d, getCompilerDelegateFor new_error options inputPath = Return d
               ∧ delegate_class d = MUCompilerDelegate
               ∧ projectPath (delegate_options d) = inputPath)
       ∧ (∀ e, new_error MUCompilerDelegate (delegate_arguments options inputPath)
                 = Some e →
               getCompilerDelegateFor new_error options inputPath = Throw e))
  ∧ (∀ d, getCompilerDelegateFor new_error options inputPath = Return d →
          PluginOptions.mode options = Some "module-unification"
          ∧ delegate_class d = MUCompilerDelegate
          ∧ projectPath (delegate_options d) = inputPath).
Proof.
  intros Hnone. split; [| split].
  - by apply getCompilerDelegateFor_unrecognized.
  - intros Hmode.
    rewrite (getCompilerDelegateFor_module_unification new_error options inputPath
               Hnone Hmode).
    split; [done |]. unfold new_CompilerDelegate. split.
    + intros ->. eexists. split; [reflexivity | by split].
    + by intros e ->.
  - intros d Hd.
    destruct (decide (PluginOptions.mode options = Some "module-unification"))
      as [Hmode | Hmode].
    + rewrite (getCompilerDelegateFor_module_unification new_error options inputPath
                 Hnone Hmode) in Hd.
      apply new_CompilerDelegate_Return in Hd as [_ ->]. by split.
    + rewrite (getCompilerDelegateFor_unrecognized new_error options inputPath
                 Hnone Hmode) in Hd. discriminate.
Qed.

Lemma getCompilerDelegateFor_mode_witness :
  getCompilerDelegateFor no_error basic_options "/app"
    = Throw "Unrecognized compiler mode basic"
  ∧ getCompilerDelegateFor missing_project no_mode_options "/app"
      = Throw "Unrecognized compiler mode undefined"
  ∧ (∃ d, getCompilerDelegateFor no_error mu_options "/app" = Return d
          ∧ delegate_class d = MUCompilerDelegate
          ∧ projectPath (delegate_options d) = "/app")
  ∧ getCompilerDelegateFor missing_project mu_options "/app"
      = Throw "no project at /app".
Proof.
  split; [| split; [| split]].
  - apply (proj1 (getCompilerDelegateFor_mode no_error basic_options "/app" eq_refl)).
    discriminate.
  - apply (proj1 (getCompilerDelegateFor_mode missing_project no_mode_options "/app"
                    eq_refl)).
    discriminate.
  - apply (proj1 (proj2 (getCompilerDelegateFor_mode no_error mu_options "/app"
                           eq_refl))); reflexivity.
  - apply (proj1 (proj2 (getCompilerDelegateFor_mode missing_project mu_options "/app"
                           eq_refl))); reflexivity.
Defined.

Lemma constructor_Return (options : PluginOptions.t) (σ : Store) :
  truthy (PluginOptions.mode options)
    && bool_decide (is_Some (PluginOptions.CompilerDelegate options)) = false →
  ∃ this σ', constructor options σ = Return (this, σ')
             ∧ This.options this = options
             ∧ This.bundle this = None.
Proof.
  intros Hguard. unfold constructor. rewrite Hguard.
  eexists _, _. split; [reflexivity | by split].
Qed.

(** C6, as far as the code goes: a mode together with a delegate class is
    rejected by the constructor.  A missing or unrecognized mode (with no
    delegate class) passes the constructor and [apply]; it is rejected by the
    'this-compilation' handler, at the start of every build, which throws
    before it sets a bundle or plugs the 'optimize-tree' handler, so with no
    call of [Bundle.compile]. *)
Theorem configuration_errors (options : PluginOptions.t) :
  (truthy (PluginOptions.mode options) = true →
   is_Some (PluginOptions.CompilerDelegate options) →
   ∀ σ, constructor options σ =
          Throw "You can provide a mode or a compiler delegate, but not both.")
  ∧ (PluginOptions.CompilerDelegate options = None →
     PluginOptions.mode options ≠ Some "module-unification" →
     (∀ σ, ∃ this σ', constructor options σ = Return (this, σ')
                      ∧ This.options this = options)
     ∧ (∀ this compiler c,
          This.options this = options →
          js_or (PluginOptions.context options) (compiler_context compiler) = Some c →
          ∃ compiler', apply this compiler = Return compiler')
     ∧ (∀ new_error inputPath compilation w,
          This.options (this w) = options →
          ∃ w', this_compilation new_error inputPath compilation w =
                  (Throw ("Unrecognized compiler mode " +:+
                          interpolate (PluginOptions.mode options)), w')
                ∧ compile_calls w' = compile_calls w
                ∧ This.bundle (this w') = This.bundle (this w))).
Proof.
  split.
  - intros Hmode Hdel σ. unfold constructor.
    rewrite Hmode, (bool_decide_eq_true_2 _ Hdel). reflexivity.
  - intros Hnone Hmode. split; [| split].
    + intros σ.
      destruct (constructor_Return options σ) as (t & σ' & Hc & Ho & _).
      { rewrite Hnone. apply andb_false_iff. right.
        apply bool_decide_eq_false_2. by intros [? ?]. }
      eauto.
    + intros t compiler c Ho Hctx. unfold apply. rewrite Ho, Hctx. simpl. eauto.
    + intros new_error inputPath compilation w Ho.
      unfold this_compilation, reset_dataSegmentModules, getBundleFor. simpl.
      rewrite Ho.
      rewrite (getCompilerDelegateFor_unrecognized new_error options inputPath
                 Hnone Hmode).
      simpl. eexists. split; [reflexivity | by split].
Qed.

Lemma configuration_errors_witness :
  constructor both_options initial_store =
    Throw "You can provide a mode or a compiler delegate, but not both."
  ∧ (∃ this σ', constructor basic_options initial_store = Return (this, σ')
                ∧ This.options this = basic_options)
  ∧ ∃ w', this_compilation no_error "/app"
            {| modules := []; assets := ∅; finish_calls := 0;
               rebuildModule_calls := []; additional_assets := [];
               need_additional_seal := 0 |}
            {| store := initial_store;
               this := {| This.self := 0; This.options := basic_options;
                          This.outputFile := "templates.gbx";
                          This.CompilerDelegate := None; This.mode := None;
                          This.dataSegmentModules := 0; This.loaderOptions := 0;
                          This.bundle := None |};
               mods := ∅; compile_calls := 0 |} =
            (Throw "Unrecognized compiler mode basic", w')
          ∧ compile_calls w' = 0
          ∧ This.bundle (this w') = None.
Proof.
  split; [| split].
  - apply (proj1 (configuration_errors both_options)); [reflexivity | by eexists].
  - apply (proj2 (configuration_errors basic_options)); [reflexivity | discriminate].
  - apply (proj2 (configuration_errors basic_options)); [reflexivity | discriminate | reflexivity].
Defined.

(** C6 as the spec words it fails: with mode 'basic' and no delegate class
    the options are rejected, yet neither the constructor nor [apply]
    throws. *)
Lemma configuration_errors_not_at_setup :
  misconfigured basic_options
  ∧ ¬ raised_at_setup basic_options initial_store bare_compiler.
Proof.
  split.
  - right. split; [reflexivity | discriminate].
  - vm_compute. tauto.
Qed.

(** ** The shared loader options *)

Lemma attach_lookup (this : loc) (opts : list loc) (objs : gmap loc LoaderOptions)
    (o : loc) :
  attach this opts objs !! o =
    if decide (o ∈ opts) then Some {| compiler := Some this |} else objs !! o.
Proof.
  unfold attach. revert objs. induction opts as [| x opts IH]; intros objs; cbn [foldl].
  - rewrite decide_False; [done | apply not_elem_of_nil].
  - rewrite IH. destruct (decide (o ∈ opts)) as [Hin | Hnin].
    + rewrite decide_True; [done | by right].
    + destruct (decide (o = x)) as [-> | Hne].
      * rewrite decide_True; [| by left]. by rewrite lookup_insert_eq.
      * rewrite decide_False; [by rewrite lookup_insert_ne |].
        rewrite elem_of_cons. tauto.
Qed.

Lemma array_push_eq (a x : loc) (h : gmap loc (list loc)) :
  array (push a x h) a = array h a ++ [x].
Proof. unfold array at 1, push. by rewrite lookup_insert_eq. Qed.

(** What a run of static loader calls does to the heap: it appends option
    objects that did not exist before to the shared list, and leaves the
    existing objects alone. *)
Lemma loaders_spec (paths : list string) (σ : Store) :
  loaderOptions (loaders paths σ) = loaderOptions σ
  ∧ instances (loaders paths σ) = instances σ
  ∧ (∃ new, array (optArrays (loaders paths σ)) (loaderOptions σ) =
              array (optArrays σ) (loaderOptions σ) ++ new
            ∧ Forall (λ o, optObjs σ !! o = None) new)
  ∧ (∀ o, is_Some (optObjs σ !! o) →
          optObjs (loaders paths σ) !! o = optObjs σ !! o).
Proof.
  unfold loaders. revert σ. induction paths as [| p paths IH]; intros σ; simpl.
  - split; [done |]. split; [done |]. split; [| done].
    exists []. by rewrite app_nil_r.
  - destruct (IH (loader p σ).2) as (Hg & Hi & (new & Hnew & Hfresh) & Hold).
    simpl in Hg, Hi, Hnew, Hold.
    pose proof (is_fresh (dom (optObjs σ))) as Hf.
    apply not_elem_of_dom in Hf.
    split; [done |]. split; [done |]. split.
    + exists (fresh (dom (optObjs σ)) :: new). split.
      * rewrite Hnew, array_push_eq. by rewrite <- app_assoc.
      * constructor; [done |].
        eapply Forall_impl; [exact Hfresh |]. simpl. intros o Ho.
        destruct (decide (o = fresh (dom (optObjs σ)))) as [-> | Hne]; [done |].
        by rewrite lookup_insert_ne in Ho.
    + intros o Ho. 
      assert (o ≠ fresh (dom (optObjs σ))) as Hne.
      { intros ->. rewrite Hf in Ho. by destruct Ho. }
      rewrite Hold; simpl.
      * by rewrite lookup_insert_ne.
      * by rewrite lookup_insert_ne.
Qed.

(** C10: a successful [new GlimmerCompiler(options)] sets the [compiler]
    field of every option object of the shared [loaderOptions] list to the
    new instance, keeps that very list as the instance's [loaderOptions], and
    points the shared variable to a new, empty list; so an instance
    constructed later, after any number of further static loader calls, finds
    none of those option objects in its list and leaves them attached to the
    first instance. *)
Theorem constructor_drains_loaderOptions (options : PluginOptions.t)
    (σ σ' : Store) (this : This.t) :
  is_Some (optArrays σ !! loaderOptions σ) →
  constructor options σ = Return (this, σ') →
  let drained := array (optArrays σ) (loaderOptions σ) in
  (This.self this ∉ instances σ)
  ∧ (∀ o, o ∈ drained → optObjs σ' !! o = Some {| compiler := Some (This.self this) |})
  ∧ This.loaderOptions this = loaderOptions σ
  ∧ array (optArrays σ') (This.loaderOptions this) = drained
  ∧ loaderOptions σ' ≠ loaderOptions σ
  ∧ array (optArrays σ') (loaderOptions σ') = []
  ∧ ∀ paths options2 that σ2,
      constructor options2 (loaders paths σ') = Return (that, σ2) →
      This.self that ≠ This.self this
      ∧ ∀ o, o ∈ drained →
             (o ∉ array (optArrays σ2) (This.loaderOptions that))
             ∧ optObjs σ2 !! o = Some {| compiler := Some (This.self this) |}.
Proof.
  intros Hglobal Hctor drained. unfold constructor in Hctor.
  destruct (_ && _); [discriminate |].
  injection Hctor as <- <-. simpl.
  pose proof (is_fresh (dom (optArrays σ))) as Hfresh.
  assert (fresh (dom (optArrays σ)) ≠ loaderOptions σ) as Hne.
  { intros Heq. apply Hfresh. rewrite Heq. by apply elem_of_dom. }
  assert (∀ o, o ∈ drained →
            attach (fresh (instances σ)) drained (optObjs σ) !! o =
              Some {| compiler := Some (fresh (instances σ)) |}) as Hattached.
  { intros o Ho. rewrite attach_lookup. by rewrite decide_True. }
  split; [apply is_fresh |].
  split; [exact Hattached |].
  split; [reflexivity |].
  split; [unfold array; by rewrite lookup_insert_ne |].
  split; [exact Hne |].
  split; [unfold array; by rewrite lookup_insert_eq |].
  intros paths options2 that σ2 Hctor2.
  match type of Hctor2 with
  | context [loaders paths ?s] => set (σ1 := s) in *
  end.
  destruct (loaders_spec paths σ1) as (Hg & Hi & (new & Hnew & Hnewfresh) & Hold).
  unfold constructor in Hctor2.
  destruct (_ && _); [discriminate |].
  injection Hctor2 as <- <-. simpl.
  split.
  - rewrite Hi. subst σ1. simpl. intros Heq.
    pose proof (is_fresh ({[fresh (instances σ)]} ∪ instances σ)) as Hf.
    apply Hf. rewrite Heq. apply elem_of_union_l, elem_of_singleton. reflexivity.
  - intros o Ho.
    assert (o ∉ array (optArrays (loaders paths σ1)) (loaderOptions (loaders paths σ1)))
      as Hnotin.
    { rewrite Hg, Hnew. subst σ1. simpl. unfold array at 1.
      rewrite lookup_insert_eq. simpl.
      intros Hin. rewrite Forall_forall in Hnewfresh.
      specialize (Hnewfresh o Hin). simpl in Hnewfresh.
      fold drained in Hnewfresh.
      by rewrite (Hattached o Ho) in Hnewfresh. }
    split.
    + unfold array at 1.
      destruct (decide (fresh (dom (optArrays (loaders paths σ1))) =
                        loaderOptions (loaders paths σ1))) as [-> | Hne2].
      * rewrite lookup_insert_eq. apply not_elem_of_nil.
      * rewrite lookup_insert_ne by exact Hne2. exact Hnotin.
    + rewrite attach_lookup, decide_False by exact Hnotin.
      rewrite Hold; subst σ1; simpl; fold drained; rewrite (Hattached o Ho); eauto.
Qed.

Lemma constructor_drains_loaderOptions_witness :
  ∃ this σ',
    is_Some (optArrays two_loaders_store !! loaderOptions two_loaders_store)
    ∧ constructor mu_options two_loaders_store = Return (this, σ')
    ∧ array (optArrays two_loaders_store) (loaderOptions two_loaders_store) = [0; 1]
    ∧ (∀ o, o ∈ [0; 1] → optObjs σ' !! o = Some {| compiler := Some (This.self this) |})
    ∧ array (optArrays σ') (This.loaderOptions this) = [0; 1]
    ∧ array (optArrays σ') (loaderOptions σ') = [].
Proof.
  eexists _, _.
  split; [by eexists |].
  split; [reflexivity |].
  split; [reflexivity |].
  pose proof (constructor_drains_loaderOptions mu_options two_loaders_store _ _
                ltac:(by eexists) eq_refl) as H.
  split; [apply H |]. split; apply H.
Defined.

(** ** Module objects *)

(** A loop that overwrites fields of the modules of a list, one module after
    the other, leaves every listed module overwritten and the others as they
    were. *)
Lemma foldl_update_lookup (f : Module_ → Module_) (l : list loc)
    (h : gmap loc Module_) (m : loc) :
  (∀ x, f (f x) = f x) →
  foldl (λ h k, <[k := f (h !!! k)]> h) h l !! m =
    if decide (m ∈ l) then Some (f (h !!! m)) else h !! m.
Proof.
  intros Hidem. revert h. induction l as [| a l IH]; intros h; cbn [foldl].
  - rewrite decide_False; [done | apply not_elem_of_nil].
  - rewrite IH. destruct (decide (m = a)) as [-> | Hne].
    + rewrite lookup_total_insert_eq, Hidem, lookup_insert_eq.
      rewrite (decide_True (P := a ∈ a :: l)) by left.
      by destruct (decide (a ∈ l)).
    + rewrite lookup_total_insert_ne, lookup_insert_ne by done.
      destruct (decide (m ∈ l)) as [Hin | Hnin].
      * rewrite decide_True; [done | by right].
      * rewrite decide_False; [done |]. rewrite elem_of_cons. tauto.
Qed.

Lemma set_table_idem (source : Source) (x : Module_) :
  set_table source (set_table source x) = set_table source x.
Proof. reflexivity. Qed.

Lemma clear_usage_idem (x : Module_) : clear_usage (clear_usage x) = clear_usage x.
Proof. reflexivity. Qed.

(** ** The rebuild coordinator *)

(** The synchronous part of [rewriteDataSegmentModules], in closed form. *)
Lemma populateDataSegment_foldl (source : Source) (l : list loc) (b : Build) :
  foldl (λ b m, populateDataSegment m source b) b l =
    {| world :=
         {| store := store (world b); this := this (world b);
            mods := foldl (λ h m, <[m := set_table source (h !!! m)]> h)
                          (mods (world b)) l;
            compile_calls := compile_calls (world b) |};
       session :=
         {| compilation :=
              {| modules := modules (compilation (session b));
                 assets := assets (compilation (session b));
                 finish_calls := finish_calls (compilation (session b));
                 rebuildModule_calls :=
                   rebuildModule_calls (compilation (session b)) ++ l;
                 additional_assets := additional_assets (compilation (session b));
                 need_additional_seal :=
                   need_additional_seal (compilation (session b)) |};
            dataSegmentModules := dataSegmentModules (session b);
            resealed := resealed (session b) |} |}.
Proof.
  revert b. induction l as [| a l IH]; intros b; cbn [foldl].
  - destruct b as [[] [[] ? ?]]. simpl. by rewrite app_nil_r.
  - rewrite IH. destruct b as [[] [[] ? ?]]. simpl. by rewrite <- app_assoc.
Qed.

Lemma fmap_Pending (l : list loc) :
  (λ _, Pending) <$> l = replicate (length l) Pending.
Proof. induction l as [| a l IH]; csimpl; [done | by rewrite IH]. Qed.

Lemma Promise_all_replicate (n : nat) :
  Promise_all (replicate n Pending) = if decide (n = 0) then Fulfilled else Pending.
Proof. by destruct n. Qed.

(** ** Promises *)

Lemma callbacks_snoc (evs : list (nat * option Error)) (i : nat)
    (err : option Error) (p : Phase) :
  callbacks (evs ++ [(i, err)]) p = rebuilt i err (callbacks evs p).
Proof. unfold callbacks. by rewrite foldl_app. Qed.

Lemma callbacks_app (evs evs' : list (nat * option Error)) (p : Phase) :
  callbacks (evs ++ evs') p = callbacks evs' (callbacks evs p).
Proof. unfold callbacks. by rewrite foldl_app. Qed.

(** Once the promise of [Promise.all] is settled, or when there is none, no
    callback reaches [cb] any more. *)
Lemma callbacks_settled (evs : list (nat * option Error)) (p : Phase) :
  all p ≠ Some Pending →
  all (callbacks evs p) = all p ∧ cb_calls (callbacks evs p) = cb_calls p.
Proof.
  revert p. induction evs as [| [i err] evs IH]; intros p Hall; [done |].
  change (callbacks ((i, err) :: evs) p) with (callbacks evs (rebuilt i err p)).
  assert (all (rebuilt i err p) = all p ∧ cb_calls (rebuilt i err p) = cb_calls p)
    as [Ha Hc].
  { unfold rebuilt. destruct (promises p !! i) as [[| |] |]; try done.
    destruct (all p) as [[| |] |]; done. }
  destruct (IH (rebuilt i err p)) as [Ha' Hc']; [by rewrite Ha |].
  split; congruence.
Qed.

Lemma forallb_is_fulfilled (ps : list Promise) :
  forallb is_fulfilled ps = true ↔ ∀ i, i < length ps → ps !! i = Some Fulfilled.
Proof.
  rewrite forallb_forall. split.
  - intros H i Hi. destruct (lookup_lt_is_Some_2 ps i Hi) as [q Hq].
    specialize (H q). rewrite <- list_elem_of_In in H.
    destruct q; try done; (exfalso; cut (false = true); [done |]);
      apply H; by eapply list_elem_of_lookup_2.
  - intros H q Hq. apply list_elem_of_In, list_elem_of_lookup in Hq as [i Hi].
    rewrite (H i) in Hi; [by injection Hi as <- |]. by eapply lookup_lt_Some.
Qed.

(** What holds of a phase after any run of callbacks. *)
Lemma callbacks_invariant (n : nat) (evs : list (nat * option Error)) :
  let p := callbacks evs (chained (replicate n Pending)
                                  (Promise_all (replicate n Pending))) in
  length (promises p) = n
  ∧ (∀ i, promises p !! i = Some Fulfilled → (i, None) ∈ evs)
  ∧ (all p = Some Fulfilled → ∀ i, i < n → promises p !! i = Some Fulfilled)
  ∧ (∃ a, all p = Some a ∧ cb_calls p = then_cb a).
Proof.
  induction evs as [| [j err] evs IH] using rev_ind; intros p.
  - subst p. cbn. split; [apply length_replicate |]. split; [| split].
    + intros i Hi. apply lookup_replicate in Hi as [? _]. done.
    + rewrite Promise_all_replicate. destruct (decide (n = 0)); [lia | done].
    + eauto.
  - subst p. rewrite callbacks_snoc.
    destruct IH as (Hlen & Hful & Hall & a & Ha & Hcb).
    set (p := callbacks evs _) in *.
    unfold rebuilt. destruct (promises p !! j) as [q |] eqn:Hj.
    2:{ split; [done |]. split; [| eauto].
        intros i Hi. apply elem_of_app. left. by apply Hful. }
    destruct q.
    2,3: (split; [done |]; split; [| eauto];
          intros i Hi; apply elem_of_app; left; by apply Hful).
    assert (j < n) as Hjn by (rewrite <- Hlen; by eapply lookup_lt_Some).
    assert (a ≠ Fulfilled) as Hnf.
    { intros ->. rewrite (Hall Ha j Hjn) in Hj. done. }
    assert (∀ i, <[j := match err with Some e => Rejected e | None => Fulfilled end]>
                   (promises p) !! i = Some Fulfilled → (i, err) = (j, None) ∨ (i, None) ∈ evs)
      as Hful'.
    { intros i Hi. destruct (decide (i = j)) as [-> | Hne].
      - rewrite list_lookup_insert_eq in Hi by (rewrite Hlen; lia).
        left. by destruct err.
      - rewrite list_lookup_insert_ne in Hi by done. right. by apply Hful. }
    rewrite Ha. destruct a as [| |]; [| done |]; cbn.
    + rewrite length_insert. split; [done |]. split; [| split].
      * intros i Hi. apply elem_of_app. destruct (Hful' i Hi) as [Heq | Hin].
        -- right. injection Heq as -> ->. by left.
        -- by left.
      * destruct err as [e |]; [done |]. unfold Promise_all.
        destruct (forallb _ _) eqn:Hfb; [| done]. intros _ i Hi.
        apply forallb_is_fulfilled; [done |]. by rewrite length_insert, Hlen.
      * rewrite Hcb. cbn. eauto.
    + rewrite length_insert. split; [done |]. split; [| split; [done | eauto]].
      intros i Hi. apply elem_of_app. destruct (Hful' i Hi) as [Heq | Hin].
      -- right. injection Heq as -> ->. by left.
      -- by left.
Qed.

Lemma seen_ext (P Q : Prop) `{!Decision P, !Decision Q} (x y : Promise) :
  (P ↔ Q) →
  (if bool_decide P then x else y) = (if bool_decide Q then x else y).
Proof. intros H. by rewrite (bool_decide_ext P Q H). Qed.

(** While the host reports no failure, a promise is fulfilled exactly when
    its request has been called back, and the promise of [Promise.all]
    follows the promises of the list. *)
Lemma callbacks_success (n : nat) (evs : list (nat * option Error)) :
  Forall (λ ev, ev.2 = None) evs →
  let p := callbacks evs (chained (replicate n Pending)
                                  (Promise_all (replicate n Pending))) in
  all p = Some (Promise_all (promises p))
  ∧ ∀ i, i < n →
      promises p !! i =
        Some (if bool_decide ((i, None) ∈ evs) then Fulfilled else Pending).
Proof.
  induction evs as [| [j err] evs IH] using rev_ind; intros Hok p.
  - subst p. cbn. split; [done |]. intros i Hi.
    rewrite bool_decide_eq_false_2 by apply not_elem_of_nil.
    by apply lookup_replicate_2.
  - apply Forall_app in Hok as [Hok Herr].
    rewrite Forall_singleton in Herr. cbn in Herr. subst err.
    specialize (IH Hok). destruct IH as [Hall Hps].
    destruct (callbacks_invariant n evs) as (Hlen & _ & _ & a & Ha & Hcb).
    subst p. rewrite callbacks_snoc.
    set (p := callbacks evs _) in *.
    assert (∀ i, (i, None) ∈ evs ++ [(j, @None Error)] ↔ i = j ∨ (i, None) ∈ evs)
      as Hmem.
    { intros i. rewrite elem_of_app, list_elem_of_singleton. split.
      - intros [? | Heq]; [by right | left; by injection Heq].
      - intros [-> | ?]; [by right | by left]. }
    unfold rebuilt. destruct (promises p !! j) as [q |] eqn:Hj.
    2:{ split; [done |]. intros i Hi. rewrite (Hps i Hi).
        assert (i ≠ j) as Hne.
        { intros ->. apply lookup_ge_None in Hj. lia. }
        f_equal. apply seen_ext. rewrite Hmem. tauto. }
    assert (j < n) as Hjn by (rewrite <- Hlen; by eapply lookup_lt_Some).
    pose proof (Hps j Hjn) as Hpj. rewrite Hj in Hpj. injection Hpj as Hq.
    destruct (bool_decide ((j, None) ∈ evs)) eqn:Hseen; subst q.
    + split; [done |]. intros i Hi. rewrite (Hps i Hi).
      f_equal. apply seen_ext. rewrite Hmem.
      apply bool_decide_eq_true in Hseen. split; [tauto |].
      intros [-> | ?]; done.
    + assert (Promise_all (promises p) = Pending) as Hpending.
      { unfold Promise_all. destruct (forallb _ _) eqn:Hfb; [| done].
        rewrite forallb_is_fulfilled in Hfb.
        rewrite (Hfb j) in Hj by (rewrite Hlen; done). done. }
      rewrite Hall, Hpending. cbn. split; [done |].
      intros i Hi. destruct (decide (i = j)) as [-> | Hne].
      * rewrite list_lookup_insert_eq by (rewrite Hlen; lia).
        rewrite bool_decide_eq_true_2; [done |]. apply Hmem. by left.
      * rewrite list_lookup_insert_ne by done. rewrite (Hps i Hi).
        f_equal. apply seen_ext. rewrite Hmem. tauto.
Qed.

(** When every request has been called back without an error, the promise
    of [Promise.all] is fulfilled and [cb] has been called once, with no
    error. *)
Lemma callbacks_all_rebuilt (n : nat) (evs : list (nat * option Error)) :
  Forall (λ ev, ev.2 = None) evs →
  (∀ i, i < n → (i, None) ∈ evs) →
  let p := callbacks evs (chained (replicate n Pending)
                                  (Promise_all (replicate n Pending))) in
  all p = Some Fulfilled ∧ cb_calls p = [None].
Proof.
  intros Hok Hcover p.
  destruct (callbacks_success n evs Hok) as [Hall Hps]. fold p in Hall, Hps.
  destruct (callbacks_invariant n evs) as (Hlen & _ & _ & a & Ha & Hcb).
  fold p in Hlen, Ha, Hcb.
  assert (Promise_all (promises p) = Fulfilled) as Hful.
  { unfold Promise_all. rewrite (proj2 (forallb_is_fulfilled _)); [done |].
    intros i Hi. rewrite Hlen in Hi. rewrite (Hps i Hi).
    by rewrite bool_decide_eq_true_2 by auto. }
  rewrite Hful in Hall. split; [done |].
  rewrite Ha in Hall. injection Hall as ->. done.
Qed.

(** The first failure the host reports rejects the promise of
    [Promise.all], and [cb] is called once, with that error, whatever the
    host reports afterwards. *)
Lemma callbacks_first_failure (n : nat) (pre post : list (nat * option Error))
    (i : nat) (e : Error) :
  Forall (λ ev, ev.2 = None) pre →
  i < n →
  (i, None) ∉ pre →
  let p := callbacks (pre ++ (i, Some e) :: post)
             (chained (replicate n Pending) (Promise_all (replicate n Pending))) in
  all p = Some (Rejected e) ∧ cb_calls p = [Some e].
Proof.
  intros Hok Hi Hfirst p. subst p.
  rewrite callbacks_app.
  change (callbacks ((i, Some e) :: post) ?q) with (callbacks post (rebuilt i (Some e) q)).
  destruct (callbacks_success n pre Hok) as [Hall Hps].
  destruct (callbacks_invariant n pre) as (Hlen & _ & _ & a & Ha & Hcb).
  set (p := callbacks pre _) in *.
  pose proof (Hps i Hi) as Hpi. rewrite bool_decide_eq_false_2 in Hpi by done.
  assert (Promise_all (promises p) = Pending) as Hpending.
  { unfold Promise_all. destruct (forallb _ _) eqn:Hfb; [| done].
    rewrite forallb_is_fulfilled in Hfb.
    rewrite (Hfb i) in Hpi by (rewrite Hlen; done). done. }
  rewrite Hpending in Hall. rewrite Ha in Hall. injection Hall as ->.
  assert (all (rebuilt i (Some e) p) = Some (Rejected e)
          ∧ cb_calls (rebuilt i (Some e) p) = [Some e]) as [Hr Hc].
  { unfold rebuilt. rewrite Hpi, Ha. cbn. by rewrite Hcb. }
  destruct (callbacks_settled post (rebuilt i (Some e) p)) as [Ha' Hc'].
  { by rewrite Hr. }
  split; congruence.
Qed.

(** C4: for a list of N placeholders (N may be 0, entries may repeat) and a
    data-segment source, [rewriteDataSegmentModules] stores the source in the
    [__table] of every listed module and touches no other module, asks the
    host for exactly N rebuilds, one per entry in the order of the list, and
    returns a promise that is fulfilled only when each of the N requests has
    been called back without an error, and is fulfilled once they all have;
    for N = 0 there is no rebuild and the promise is fulfilled at once. *)
Theorem rewriteDataSegmentModules_rebuilds (modules : list loc) (source : Source)
    (b : Build) :
  let '(b', promises, aggregate) := rewriteDataSegmentModules modules source b in
  let n := length modules in
  (∀ m, m ∈ modules → __table <$> mods (world b') !! m = Some (Some source))
  ∧ (∀ m, m ∉ modules → mods (world b') !! m = mods (world b) !! m)
  ∧ rebuildModule_calls (compilation (session b')) =
      rebuildModule_calls (compilation (session b)) ++ modules
  ∧ length promises = n
  ∧ (∀ evs, all (callbacks evs (chained promises aggregate)) = Some Fulfilled →
            ∀ i, i < n → (i, None) ∈ evs)
  ∧ (∀ evs, cb_calls (callbacks evs (chained promises aggregate)) = [None] →
            ∀ i, i < n → (i, None) ∈ evs)
  ∧ (∀ evs, Forall (λ ev, ev.2 = None) evs →
            (∀ i, i < n → (i, None) ∈ evs) →
            all (callbacks evs (chained promises aggregate)) = Some Fulfilled
            ∧ cb_calls (callbacks evs (chained promises aggregate)) = [None])
  ∧ (n = 0 → aggregate = Fulfilled
             ∧ cb_calls (chained promises aggregate) = [None]
             ∧ rebuildModule_calls (compilation (session b')) =
                 rebuildModule_calls (compilation (session b))).
Proof.
  unfold rewriteDataSegmentModules.
  rewrite populateDataSegment_foldl, fmap_Pending. cbn [world session mods compilation rebuildModule_calls].
  split; [| split; [| split; [| split; [| split; [| split; [| split]]]]]].
  - intros m Hm. rewrite foldl_update_lookup by apply set_table_idem.
    by rewrite decide_True.
  - intros m Hm. rewrite foldl_update_lookup by apply set_table_idem.
    by rewrite decide_False.
  - done.
  - apply length_replicate.
  - intros evs Hall i Hi.
    destruct (callbacks_invariant (length modules) evs) as (_ & Hful & Hall' & _).
    apply Hful. by apply Hall'.
  - intros evs Hcb i Hi.
    destruct (callbacks_invariant (length modules) evs) as (_ & Hful & Hall' & a & Ha & Hcb').
    apply Hful, Hall'; [| done]. rewrite Ha. rewrite Hcb' in Hcb.
    destruct a; by try discriminate.
  - intros evs Hok Hcover. by apply callbacks_all_rebuilt.
  - intros Hn. apply length_zero_iff_nil in Hn. rewrite Hn. cbn.
    by rewrite app_nil_r.
Qed.

Lemma rewriteDataSegmentModules_rebuilds_witness :
  let '(b', promises, aggregate) :=
    rewriteDataSegmentModules [10; 11; 10] "var data = 1;" sample_build in
  (∀ m, m ∈ [10; 11; 10] →
        __table <$> mods (world b') !! m = Some (Some "var data = 1;"))
  ∧ rebuildModule_calls (compilation (session b')) = [10; 11; 10]
  ∧ length promises = 3
  ∧ all (callbacks [(2, None); (0, None); (1, None)] (chained promises aggregate))
      = Some Fulfilled.
Proof.
  pose proof (rewriteDataSegmentModules_rebuilds [10; 11; 10] "var data = 1;"
                sample_build) as H.
  destruct (rewriteDataSegmentModules [10; 11; 10] "var data = 1;" sample_build)
    as [[b' promises] aggregate] eqn:Hrun.
  destruct H as (Htable & _ & Hcalls & Hlen & _ & _ & Hlive & _).
  split; [exact Htable |]. split; [exact Hcalls |]. split; [exact Hlen |].
  apply Hlive.
  - repeat constructor.
  - intros i Hi. cbn in Hi.
    destruct i as [| [| [| i]]]; [| | | lia];
      apply (bool_decide_unpack _); reflexivity.
Defined.

(** ** The 'optimize-tree' handler *)

Section Handlers.

Variable compile : Bundle → Result (Source * Source).

Lemma optimize_tree_resealed (b : Build) :
  resealed (session b) = true →
  optimize_tree compile b = (Return called_back, b).
Proof. intros H. unfold optimize_tree. by rewrite H. Qed.

Lemma optimize_tree_throws (b : Build) (bundle : Bundle) (e : Error) :
  resealed (session b) = false →
  This.bundle (this (world b)) = Some bundle →
  compile bundle = Throw e →
  optimize_tree compile b = (Throw e, count_compile b).
Proof. intros Hr Hb Hc. unfold optimize_tree. by rewrite Hr, Hb, Hc. Qed.

(** The state the synchronous part of the handler leaves when the bundle
    compiles: the placeholders rewritten, a rebuild requested for each, and
    one handler more on each of the two hooks. *)
Lemma optimize_tree_compiles (b : Build) (bundle : Bundle) (bytecode data : Source) :
  resealed (session b) = false →
  This.bundle (this (world b)) = Some bundle →
  compile bundle = Return (bytecode, data) →
  let placeholders :=
    array (modArrays (store (world b))) (dataSegmentModules (session b)) in
  optimize_tree compile b =
    (Return (chained (replicate (length placeholders) Pending)
                     (Promise_all (replicate (length placeholders) Pending))),
     {| world :=
          {| store := store (world b); this := this (world b);
             mods := foldl (λ h m, <[m := set_table data (h !!! m)]> h)
                           (mods (world b)) placeholders;
             compile_calls := S (compile_calls (world b)) |};
        session :=
          {| compilation :=
               {| modules := modules (compilation (session b));
                  assets := assets (compilation (session b));
                  finish_calls := finish_calls (compilation (session b));
                  rebuildModule_calls :=
                    rebuildModule_calls (compilation (session b)) ++ placeholders;
                  additional_assets :=
                    additional_assets (compilation (session b)) ++ [bytecode];
                  need_additional_seal :=
                    S (need_additional_seal (compilation (session b))) |};
             dataSegmentModules := dataSegmentModules (session b);
             resealed := false |} |}).
Proof.
  intros Hr Hb Hc placeholders. unfold optimize_tree.
  rewrite Hr, Hb, Hc. unfold rewriteDataSegmentModules.
  rewrite populateDataSegment_foldl, fmap_Pending.
  destruct b as [[] [[] ? ?]]. simpl in *. by subst.
Qed.

Lemma optimize_tree_keeps_guard (b : Build) :
  resealed (session (optimize_tree compile b).2) = resealed (session b)
  ∧ This.bundle (this (world (optimize_tree compile b).2)) =
      This.bundle (this (world b)).
Proof.
  destruct (resealed (session b)) eqn:Hr.
  { by rewrite optimize_tree_resealed. }
  destruct (This.bundle (this (world b))) as [bundle |] eqn:Hb.
  2:{ unfold optimize_tree. by rewrite Hr, Hb. }
  destruct (compile bundle) as [[bytecode data] | e] eqn:Hc.
  - by rewrite (optimize_tree_compiles b bundle bytecode data).
  - by rewrite (optimize_tree_throws b bundle e).
Qed.

End Handlers.

(** 'additional-assets' in closed form: the handlers write the same key one
    after the other. *)
Lemma fire_additional_assets_eq (b : Build) :
  fire_additional_assets b =
    with_compilation (λ c,
      {| modules := modules c;
         assets := foldl (λ a bytecode,
                     <[PluginOptions.output (This.options (this (world b))) := bytecode]> a)
                     (assets c) (additional_assets c);
         finish_calls := finish_calls c;
         rebuildModule_calls := rebuildModule_calls c;
         additional_assets := additional_assets c;
         need_additional_seal := need_additional_seal c |}) b.
Proof.
  unfold fire_additional_assets.
  destruct b as [w [[ms a fc rc hs ns] d r]]. cbn [session compilation additional_assets].
  assert (∀ l a,
    foldl (λ b bytecode, additional_assets_handler bytecode b)
      {| world := w;
         session := {| compilation := {| modules := ms; assets := a; finish_calls := fc;
                                         rebuildModule_calls := rc; additional_assets := hs;
                                         need_additional_seal := ns |};
                       dataSegmentModules := d; resealed := r |} |} l =
    {| world := w;
       session := {| compilation :=
                       {| modules := ms;
                          assets := foldl (λ a bytecode,
                                      <[PluginOptions.output (This.options (this w)) := bytecode]> a)
                                      a l;
                          finish_calls := fc; rebuildModule_calls := rc;
                          additional_assets := hs; need_additional_seal := ns |};
                     dataSegmentModules := d; resealed := r |} |}) as H.
  { induction l as [| x l IH]; intros a'; [done |]. cbn [foldl]. by rewrite <- IH. }
  by rewrite H.
Qed.

(** ** The seal loop *)

Section Seal.

Variable compile : Bundle → Result (Source * Source).
Variable unseal : gmap string Source → gmap string Source.
Variable flag_usage : gmap loc Module_ → gmap loc Module_.

(** A pass on a session whose guard is tripped ends the build. *)
Lemma seal_resealed (passes : nat) (rebuilds : list (list (nat * option Error)))
    (b : Build) :
  resealed (session b) = true →
  seal compile unseal flag_usage (S passes) rebuilds b =
    (Done, fire_additional_assets (host_steps flag_usage b)).
Proof.
  intros Hr. cbn [seal]. rewrite optimize_tree_resealed by done.
  destruct (callbacks_settled (hd [] rebuilds) called_back) as [_ ->]; [done |].
  cbn [called_back cb_calls].
  unfold fire_need_additional_seal, need_additional_seal_handler.
  rewrite fire_additional_assets_eq. cbn. rewrite Hr.
  by destruct (need_additional_seal _).
Qed.

(** The first pass of a session whose bundle compiles. *)
Lemma seal_compiles (passes : nat) (rebuilds : list (list (nat * option Error)))
    (b : Build) (bundle : Bundle) (bytecode data : Source) :
  resealed (session b) = false →
  This.bundle (this (world b)) = Some bundle →
  compile bundle = Return (bytecode, data) →
  let n := length (array (modArrays (store (world b)))
                         (dataSegmentModules (session b))) in
  let b1 := (optimize_tree compile (host_steps flag_usage b)).2 in
  seal compile unseal flag_usage (S passes) rebuilds b =
    match cb_calls (callbacks (hd [] rebuilds)
                      (chained (replicate n Pending)
                               (Promise_all (replicate n Pending)))) with
    | [] => (Stalled, b1)
    | Some e :: _ => (Failed e, b1)
    | None :: _ =>
        seal compile unseal flag_usage passes (tl rebuilds)
          (unseal_compilation unseal
             (with_resealed true (resetCompilation (fire_additional_assets b1))))
    end.
Proof.
  intros Hr Hb Hc n b1. cbn [seal]. subst b1.
  rewrite (optimize_tree_compiles compile (host_steps flag_usage b) bundle
             bytecode data Hr Hb Hc).
  cbn [host_steps with_mods world session store]. fold n. cbn [snd].
  destruct (cb_calls _) as [| [e |] ?]; [done | done |].
  unfold fire_need_additional_seal, need_additional_seal_handler.
  rewrite fire_additional_assets_eq. reflexivity.
Qed.

(** Two passes are enough for any session, and [Bundle.compile] has then
    been called once. *)
Lemma seal_two_passes (passes : nat) (rebuilds : list (list (nat * option Error)))
    (b : Build) (bundle : Bundle) :
  resealed (session b) = false →
  This.bundle (this (world b)) = Some bundle →
  (seal compile unseal flag_usage (S (S passes)) rebuilds b).1 ≠ Unbounded
  ∧ compile_calls (world (seal compile unseal flag_usage (S (S passes)) rebuilds b).2) =
      S (compile_calls (world b)).
Proof.
  intros Hr Hb.
  destruct (compile bundle) as [[bytecode data] | e] eqn:Hc.
  - rewrite (seal_compiles _ _ b bundle bytecode data Hr Hb Hc).
    rewrite (optimize_tree_compiles compile (host_steps flag_usage b) bundle
               bytecode data Hr Hb Hc).
    cbn [snd].
    destruct (cb_calls _) as [| [e |] ?]; [done | done |].
    rewrite seal_resealed by done.
    rewrite !fire_additional_assets_eq. done.
  - cbn [seal].
    rewrite (optimize_tree_throws compile (host_steps flag_usage b) bundle e Hr Hb Hc).
    done.
Qed.

End Seal.

(** ** The reseal guard *)

Section Guard.

Variable compile : Bundle → Result (Source * Source).
Variable unseal : gmap string Source → gmap string Source.

Lemma step_tripped (ev : Event) (b : Build) :
  resealed (session b) = true →
  ((step compile unseal ev b).1 = [] ∨ (step compile unseal ev b).1 = [false])
  ∧ resealed (session (step compile unseal ev b).2) = true.
Proof.
  intros Hr. destruct ev; cbn [step fst snd].
  - split; [by left |]. by rewrite (proj1 (optimize_tree_keeps_guard compile b)).
  - split; [by left |]. by rewrite fire_additional_assets_eq.
  - destruct (need_additional_seal _); [by split; [left |] |].
    unfold need_additional_seal_handler. rewrite Hr. by split; [right |].
  - by split; [left |].
  - by split; [left |].
Qed.

Lemma step_untripped (ev : Event) (b : Build) :
  resealed (session b) = false →
  ((step compile unseal ev b).1 = []
   ∧ resealed (session (step compile unseal ev b).2) = false)
  ∨ ((step compile unseal ev b).1 = [true]
     ∧ resealed (session (step compile unseal ev b).2) = true).
Proof.
  intros Hr. destruct ev; cbn [step fst snd].
  - left. split; [done |]. by rewrite (proj1 (optimize_tree_keeps_guard compile b)).
  - left. split; [done |]. by rewrite fire_additional_assets_eq.
  - destruct (need_additional_seal _); [by left |].
    unfold need_additional_seal_handler. rewrite Hr. by right.
  - by left.
  - by left.
Qed.

Lemma trace_cons (ev : Event) (evs : list Event) (b : Build) :
  trace compile unseal (ev :: evs) b =
    ((step compile unseal ev b).1 ++ (trace compile unseal evs (step compile unseal ev b).2).1,
     (trace compile unseal evs (step compile unseal ev b).2).2).
Proof.
  cbn [trace]. destruct (step compile unseal ev b) as [rs b1]. cbn [fst snd].
  by destruct (trace compile unseal evs b1).
Qed.

(** Once tripped, the guard stays tripped and the handler answers false. *)
Lemma trace_tripped (evs : list Event) (b : Build) :
  resealed (session b) = true →
  (∃ n, (trace compile unseal evs b).1 = replicate n false)
  ∧ resealed (session (trace compile unseal evs b).2) = true.
Proof.
  revert b. induction evs as [| ev evs IH]; intros b Hr.
  - split; [by exists 0 | done].
  - rewrite trace_cons. cbn [fst snd].
    destruct (step_tripped ev b Hr) as [Hrs Hr'].
    destruct (IH _ Hr') as [[n Hn] Hr'']. split; [| done].
    rewrite Hn. destruct Hrs as [-> | ->]; [by exists n | by exists (S n)].
Qed.

(** From an untripped guard, the handler answers true the first time it
    runs and false ever after. *)
Lemma trace_untripped (evs : list Event) (b : Build) :
  resealed (session b) = false →
  ((trace compile unseal evs b).1 = []
   ∧ resealed (session (trace compile unseal evs b).2) = false)
  ∨ ((∃ n, (trace compile unseal evs b).1 = true :: replicate n false)
     ∧ resealed (session (trace compile unseal evs b).2) = true).
Proof.
  revert b. induction evs as [| ev evs IH]; intros b Hr.
  - by left.
  - rewrite trace_cons. cbn [fst snd].
    destruct (step_untripped ev b Hr) as [[-> Hr'] | [-> Hr']].
    + exact (IH _ Hr').
    + right. destruct (trace_tripped evs _ Hr') as [[n Hn] Hr''].
      split; [| done]. exists n. by rewrite Hn.
Qed.

End Guard.

(** What [resetCompilation] does to the host. *)
Lemma resetCompilation_spec (b : Build) :
  (∀ m, m ∈ modules (compilation (session b)) →
        mods (world (resetCompilation b)) !! m =
          Some (clear_usage (mods (world b) !!! m)))
  ∧ (∀ m, m ∉ modules (compilation (session b)) →
          mods (world (resetCompilation b)) !! m = mods (world b) !! m)
  ∧ finish_calls (compilation (session (resetCompilation b))) =
      S (finish_calls (compilation (session b)))
  ∧ resealed (session (resetCompilation b)) = resealed (session b).
Proof.
  unfold resetCompilation. cbn.
  split; [| split; [| done]]; intros m Hm;
    rewrite foldl_update_lookup by apply clear_usage_idem.
  - by rewrite decide_True.
  - by rewrite decide_False.
Qed.

(** C1: in a session whose guard is untripped, the 'need-additional-seal'
    handler answers true, trips the guard, sets [used] and [usedExports] of
    every module of the compilation to [null] and calls
    [compilation.finish()] once; with the guard tripped it answers false and
    changes nothing.  Over any sequence of host and loader events of a
    session, its answers are therefore one true followed by falses only, and
    a tripped guard is never untripped. *)
Theorem need_additional_seal_once (compile : Bundle → Result (Source * Source))
    (unseal : gmap string Source → gmap string Source)
    (evs : list Event) (b : Build) :
  resealed (session b) = false →
  (need_additional_seal_handler b).1 = true
  ∧ resealed (session (need_additional_seal_handler b).2) = true
  ∧ (∀ m, m ∈ modules (compilation (session b)) →
          ∃ x, mods (world (need_additional_seal_handler b).2) !! m = Some x
               ∧ used x = None ∧ usedExports x = None)
  ∧ finish_calls (compilation (session (need_additional_seal_handler b).2)) =
      S (finish_calls (compilation (session b)))
  ∧ (∀ b', resealed (session b') = true →
           need_additional_seal_handler b' = (false, b'))
  ∧ ((trace compile unseal evs b).1 = []
     ∨ ∃ n, (trace compile unseal evs b).1 = true :: replicate n false)
  ∧ (∀ b', resealed (session b') = true →
           resealed (session (trace compile unseal evs b').2) = true).
Proof.
  intros Hr. unfold need_additional_seal_handler at 1 2 3 4. rewrite Hr.
  cbn [fst snd]. destruct (resetCompilation_spec b) as (Hclear & _ & Hfinish & _).
  split; [done |]. split; [done |]. split; [| split; [| split; [| split]]].
  - intros m Hm. eexists. split; [by apply Hclear |]. done.
  - exact Hfinish.
  - intros b' Hr'. unfold need_additional_seal_handler. by rewrite Hr'.
  - destruct (trace_untripped compile unseal evs b Hr) as [[-> _] | [Hn _]];
      [by left | by right].
  - intros b' Hr'. by apply trace_tripped.
Qed.

Lemma need_additional_seal_once_witness :
  resealed (session sample_build) = false
  ∧ (need_additional_seal_handler sample_build).1 = true
  ∧ ((trace sample_compile sample_unseal sample_events sample_build).1 = []
     ∨ ∃ n, (trace sample_compile sample_unseal sample_events sample_build).1 =
              true :: replicate n false).
Proof.
  split; [reflexivity |].
  pose proof (need_additional_seal_once sample_compile sample_unseal sample_events
                sample_build eq_refl) as H.
  split; apply H.
Defined.

(** ** Compiling once *)

(** C2: when the 'optimize-tree' handler runs with the guard tripped it
    calls [cb()] and changes nothing: no call of [Bundle.compile], no
    placeholder rewritten, no rebuild requested.  With the guard untripped it
    calls [Bundle.compile].  In a build driven by the host's seal loop, with
    room for two passes or more, [Bundle.compile] is called once in all, and
    the loop ends within its two passes. *)
Theorem optimize_tree_compiles_once (compile : Bundle → Result (Source * Source))
    (unseal : gmap string Source → gmap string Source)
    (flag_usage : gmap loc Module_ → gmap loc Module_)
    (b : Build) (bundle : Bundle) :
  This.bundle (this (world b)) = Some bundle →
  (resealed (session b) = true →
     optimize_tree compile b = (Return called_back, b)
     ∧ cb_calls called_back = [None])
  ∧ (resealed (session b) = false →
       compile_calls (world (optimize_tree compile b).2) = S (compile_calls (world b))
       ∧ ∀ (passes : nat) rebuilds,
           (2 ≤ passes)%nat →
           (seal compile unseal flag_usage passes rebuilds b).1 ≠ Unbounded
           ∧ compile_calls (world (seal compile unseal flag_usage passes rebuilds b).2) =
               S (compile_calls (world b))).
Proof.
  intros Hb. split.
  - intros Hr. split; [by apply optimize_tree_resealed | done].
  - intros Hr. split.
    + destruct (compile bundle) as [[bytecode data] | e] eqn:Hc.
      * by rewrite (optimize_tree_compiles compile b bundle bytecode data).
      * by rewrite (optimize_tree_throws compile b bundle e).
    + intros passes rebuilds Hp. destruct passes as [| [| passes]]; [lia | lia |].
      by apply (seal_two_passes compile unseal flag_usage passes rebuilds b bundle).
Qed.

Lemma optimize_tree_compiles_once_witness :
  (∃ bundle, This.bundle (this (world sample_build)) = Some bundle)
  ∧ compile_calls (world (optimize_tree sample_compile sample_build).2) = 1
  ∧ (seal sample_compile sample_unseal mark_used 2 [[(1, None); (0, None)]] sample_build).1
      ≠ Unbounded
  ∧ compile_calls
      (world (seal sample_compile sample_unseal mark_used 2 [[(1, None); (0, None)]]
                sample_build).2) = 1.
Proof.
  split; [eexists; reflexivity |].
  pose proof (proj2 (optimize_tree_compiles_once sample_compile sample_unseal mark_used
                       sample_build _ eq_refl) eq_refl) as [H1 H2].
  split; [exact H1 |].
  apply (H2 2 [[(1, None); (0, None)]]). lia.
Defined.

(** ** Starting a session *)

(** C3: when the 'this-compilation' handler returns, the instance's
    [dataSegmentModules] is a newly allocated, empty array, which is also the
    one the session's handlers read, and the arrays of earlier sessions are
    left as they were; [this.bundle] is a new bundle, with no template and no
    AST; and the session's [resealed] is false. *)
Theorem this_compilation_resets
    (new_error : Constructor → DelegateOptions → option Error)
    (inputPath : string) (compilation_ : Compilation)
    (w w' : World) (s : Session) :
  this_compilation new_error inputPath compilation_ w = (Return s, w') →
  dataSegmentModules s = This.dataSegmentModules (this w')
  ∧ array (modArrays (store w')) (This.dataSegmentModules (this w')) = []
  ∧ modArrays (store w) !! This.dataSegmentModules (this w') = None
  ∧ (∀ a, a ≠ This.dataSegmentModules (this w') →
          modArrays (store w') !! a = modArrays (store w) !! a)
  ∧ (∃ delegate,
       This.bundle (this w') =
         Some (new_Bundle inputPath delegate
                 (PluginOptions.mainPath (This.options (this w))))
       ∧ templates (new_Bundle inputPath delegate
                      (PluginOptions.mainPath (This.options (this w)))) = []
       ∧ asts (new_Bundle inputPath delegate
                 (PluginOptions.mainPath (This.options (this w)))) = [])
  ∧ resealed s = false
  ∧ compilation s = compilation_.
Proof.
  unfold this_compilation, reset_dataSegmentModules, getBundleFor.
  cbn [this This.options].
  destruct (getCompilerDelegateFor new_error (This.options (this w)) inputPath)
    as [delegate | e]; cbn; [| discriminate].
  intros [= <- <-]. cbn.
  split; [done |]. split; [unfold array; by rewrite lookup_insert_eq |].
  split; [apply not_elem_of_dom, is_fresh |].
  split; [intros a Ha; by rewrite lookup_insert_ne |].
  split; [by exists delegate | done].
Qed.

Lemma this_compilation_resets_witness :
  ∃ s w',
    this_compilation no_error "/app" empty_compilation
      (addDataSegmentModule 10 sample_world) = (Return s, w')
    ∧ array (modArrays (store (addDataSegmentModule 10 sample_world)))
            (This.dataSegmentModules (this (addDataSegmentModule 10 sample_world)))
        = [10]
    ∧ array (modArrays (store w')) (This.dataSegmentModules (this w')) = []
    ∧ resealed s = false.
Proof.
  eexists _, _. split; [reflexivity |]. split; [reflexivity |].
  pose proof (this_compilation_resets no_error "/app" empty_compilation
                (addDataSegmentModule 10 sample_world) _ _ eq_refl) as H.
  split; apply H.
Defined.

(** ** Failures *)

(** C5: when the bundle has compiled and the first failure the host reports
    for a rebuild request is the error E, [cb] is called once, with E,
    whatever is reported afterwards; the seal loop gives the build up with E,
    so 'additional-assets' and 'need-additional-seal' are not fired: the
    asset map is as it was, the guard is untripped and
    [compilation.finish()] has not been called. *)
Theorem rebuild_failure_fails_phase (compile : Bundle → Result (Source * Source))
    (unseal : gmap string Source → gmap string Source)
    (flag_usage : gmap loc Module_ → gmap loc Module_)
    (b : Build) (bundle : Bundle) (bytecode data : Source)
    (pre post : list (nat * option Error)) (rest : list (list (nat * option Error)))
    (i : nat) (e : Error) (passes : nat) :
  resealed (session b) = false →
  This.bundle (this (world b)) = Some bundle →
  compile bundle = Return (bytecode, data) →
  Forall (λ ev, ev.2 = None) pre →
  (i, None) ∉ pre →
  i < length (array (modArrays (store (world b))) (dataSegmentModules (session b))) →
  let r := seal compile unseal flag_usage (S passes)
             ((pre ++ (i, Some e) :: post) :: rest) b in
  (∃ phase, (optimize_tree compile b).1 = Return phase
            ∧ cb_calls (callbacks (pre ++ (i, Some e) :: post) phase) = [Some e])
  ∧ r.1 = Failed e
  ∧ assets (compilation (session r.2)) = assets (compilation (session b))
  ∧ resealed (session r.2) = false
  ∧ finish_calls (compilation (session r.2)) = finish_calls (compilation (session b)).
Proof.
  intros Hr Hb Hc Hok Hfirst Hi r. subst r.
  rewrite (seal_compiles compile unseal flag_usage passes _ b bundle bytecode data
             Hr Hb Hc).
  rewrite (optimize_tree_compiles compile b bundle bytecode data Hr Hb Hc).
  rewrite (optimize_tree_compiles compile (host_steps flag_usage b) bundle
             bytecode data Hr Hb Hc).
  cbn [fst snd hd].
  destruct (callbacks_first_failure _ pre post i e Hok Hi Hfirst) as [_ Hcb].
  rewrite Hcb. cbn.
  split; [eexists; by split |]. done.
Qed.

Lemma rebuild_failure_fails_phase_witness :
  (∃ bundle, This.bundle (this (world sample_build)) = Some bundle
             ∧ sample_compile bundle = Return ("bytecodeBlob", "var data = 1;"))
  ∧ array (modArrays (store (world sample_build)))
          (dataSegmentModules (session sample_build)) = [10; 11]
  ∧ (seal sample_compile sample_unseal mark_used 2
       [[(0, None)] ++ (1, Some "E") :: [(1, None); (0, Some "late")]] sample_build).1
      = Failed "E"
  ∧ assets (compilation (session
      (seal sample_compile sample_unseal mark_used 2
         [[(0, None)] ++ (1, Some "E") :: [(1, None); (0, Some "late")]]
         sample_build).2)) = ∅.
Proof.
  split; [eexists; split; reflexivity |]. split; [reflexivity |].
  pose proof (rebuild_failure_fails_phase sample_compile sample_unseal
                mark_used sample_build
                _ "bytecodeBlob" "var data = 1;" [(0, None)]
                [(1, None); (0, Some "late")] [] 1 "E" 1
                eq_refl eq_refl eq_refl) as H.
  destruct H as (_ & Hfailed & Hassets & _).
  - repeat constructor.
  - intros Hin. apply list_elem_of_singleton in Hin. discriminate.
  - vm_compute. lia.
  - split; [exact Hfailed | exact Hassets].
Defined.

(** C7, as far as the code goes: when [Bundle.compile] throws, the
    'optimize-tree' handler throws the same error and its callback is never
    called; no placeholder has been rewritten, no rebuild requested, and no
    handler plugged on 'additional-assets' or 'need-additional-seal'; the
    seal loop stops on the exception. *)
Theorem compile_failure_throws (compile : Bundle → Result (Source * Source))
    (unseal : gmap string Source → gmap string Source)
    (flag_usage : gmap loc Module_ → gmap loc Module_)
    (b : Build) (bundle : Bundle) (e : Error) :
  resealed (session b) = false →
  This.bundle (this (world b)) = Some bundle →
  compile bundle = Throw e →
  (optimize_tree compile b).1 = Throw e
  ∧ mods (world (optimize_tree compile b).2) = mods (world b)
  ∧ session (optimize_tree compile b).2 = session b
  ∧ ∀ passes rebuilds,
      (seal compile unseal flag_usage (S passes) rebuilds b).1 = Crashed e
      ∧ session (seal compile unseal flag_usage (S passes) rebuilds b).2 = session b.
Proof.
  intros Hr Hb Hc. cbn [seal].
  rewrite (optimize_tree_throws compile b bundle e Hr Hb Hc).
  rewrite (optimize_tree_throws compile (host_steps flag_usage b) bundle e Hr Hb Hc).
  done.
Qed.

Lemma compile_failure_throws_witness :
  (∃ bundle, This.bundle (this (world sample_build)) = Some bundle
             ∧ failing_compile bundle = Throw "compile failed")
  ∧ (optimize_tree failing_compile sample_build).1 = Throw "compile failed"
  ∧ session (optimize_tree failing_compile sample_build).2 = session sample_build
  ∧ (seal failing_compile sample_unseal mark_used 2 [] sample_build).1
      = Crashed "compile failed".
Proof.
  split; [eexists; split; reflexivity |].
  pose proof (compile_failure_throws failing_compile sample_unseal
                mark_used sample_build
                _ "compile failed" eq_refl eq_refl eq_refl) as (H1 & _ & H2 & H3).
  split; [exact H1 |]. split; [exact H2 |]. apply (H3 1 []).
Defined.

(** C7 as the spec words it fails: the error of a failing [Bundle.compile]
    does not come through the callback of the phase. *)
Lemma compile_failure_not_through_callback :
  (∃ bundle, This.bundle (this (world sample_build)) = Some bundle
             ∧ failing_compile bundle = Throw "compile failed")
  ∧ ¬ surfaced_through_callback failing_compile sample_build "compile failed".
Proof.
  split; [eexists; split; reflexivity |].
  intros (phase & b' & Hrun & _).
  rewrite (optimize_tree_throws failing_compile sample_build _ "compile failed"
             eq_refl eq_refl eq_refl) in Hrun.
  discriminate.
Qed.

(** ** The bytecode asset *)

(** C8: a build that the seal loop completes has compiled its bundle, and
    its asset map holds the [bytecode] of that compilation under the
    [output] name of the options: it is what the host's unseal left, with
    that one entry written.  One handler has been plugged on
    'additional-assets' in the whole build, by the pass that compiled; a
    pass with the guard tripped plugs none. *)
Theorem bytecode_asset (compile : Bundle → Result (Source * Source))
    (unseal : gmap string Source → gmap string Source)
    (flag_usage : gmap loc Module_ → gmap loc Module_)
    (passes : nat) (rebuilds : list (list (nat * option Error)))
    (b b' : Build) (bundle : Bundle) :
  resealed (session b) = false →
  This.bundle (this (world b)) = Some bundle →
  additional_assets (compilation (session b)) = [] →
  seal compile unseal flag_usage passes rebuilds b = (Done, b') →
  let output := PluginOptions.output (This.options (this (world b))) in
  ∃ bytecode data,
    compile bundle = Return (bytecode, data)
    ∧ assets (compilation (session b')) =
        <[output := bytecode]>
          (unseal (<[output := bytecode]> (assets (compilation (session b)))))
    ∧ assets (compilation (session b')) !! output = Some bytecode
    ∧ (∀ k, k ≠ output →
            assets (compilation (session b')) !! k =
              unseal (<[output := bytecode]> (assets (compilation (session b)))) !! k)
    ∧ additional_assets (compilation (session b')) = [bytecode]
    ∧ ∀ b2, resealed (session b2) = true →
            additional_assets (compilation (session (optimize_tree compile b2).2)) =
              additional_assets (compilation (session b2)).
Proof.
  intros Hr Hb Hfresh Hseal output.
  destruct passes as [| passes]; [discriminate |].
  destruct (compile bundle) as [[bytecode data] | e] eqn:Hc.
  2:{ cbn [seal] in Hseal.
      rewrite (optimize_tree_throws compile (host_steps flag_usage b) bundle e
                 Hr Hb Hc) in Hseal.
      discriminate. }
  exists bytecode, data. split; [done |].
  rewrite (seal_compiles compile unseal flag_usage passes _ b bundle bytecode data Hr Hb Hc) in Hseal.
  rewrite (optimize_tree_compiles compile (host_steps flag_usage b) bundle
             bytecode data Hr Hb Hc) in Hseal.
  cbn [snd] in Hseal.
  destruct (cb_calls _) as [| [e |] ?]; [discriminate | discriminate |].
  destruct passes as [| passes]; [discriminate |].
  rewrite seal_resealed in Hseal by done.
  injection Hseal as <-.
  rewrite !fire_additional_assets_eq. cbn. rewrite Hfresh. cbn. fold output.
  split; [done |]. split; [apply lookup_insert_eq |].
  split; [intros k Hk; by rewrite lookup_insert_ne |].
  split; [done |].
  intros b2 Hr2. by rewrite optimize_tree_resealed.
Qed.

Lemma bytecode_asset_witness :
  ∃ bundle,
    This.bundle (this (world sample_build)) = Some bundle
    ∧ (seal sample_compile sample_unseal mark_used 2 [[(1, None); (0, None)]] sample_build).1
        = Done
    ∧ assets (compilation (session
        (seal sample_compile sample_unseal mark_used 2 [[(1, None); (0, None)]]
           sample_build).2)) !! "templates.gbx" = Some "bytecodeBlob"
    ∧ additional_assets (compilation (session
        (seal sample_compile sample_unseal mark_used 2 [[(1, None); (0, None)]]
           sample_build).2)) = ["bytecodeBlob"].
Proof.
  eexists. split; [reflexivity |]. split; [by vm_compute |].
  assert (seal sample_compile sample_unseal mark_used 2 [[(1, None); (0, None)]] sample_build =
          (Done, (seal sample_compile sample_unseal mark_used 2 [[(1, None); (0, None)]]
                    sample_build).2)) as Hdone by (vm_compute; reflexivity).
  destruct (bytecode_asset sample_compile sample_unseal mark_used 2 [[(1, None); (0, None)]]
              sample_build _ _ eq_refl eq_refl eq_refl Hdone)
    as (bytecode & data & Hc & _ & Hout & _ & Hplugged & _).
  injection Hc as <- <-.
  split; [exact Hout | exact Hplugged].
Defined.


(** ** Scenarios *)

(** Two placeholders and one component: both placeholders receive the data
    segment and are rebuilt, the guard answers true once, the second pass
    does not compile again, and the build ends with the bytecode as its one
    asset. *)
Example scenario_two_placeholders :
  let r := seal sample_compile sample_unseal mark_used 2 [[(1, None); (0, None)]] sample_build in
  r.1 = Done
  ∧ __table <$> mods (world r.2) !! 10 = Some (Some "var data = 1;")
  ∧ __table <$> mods (world r.2) !! 11 = Some (Some "var data = 1;")
  ∧ __table <$> mods (world r.2) !! 12 = Some None
  ∧ rebuildModule_calls (compilation (session r.2)) = [10; 11]
  ∧ finish_calls (compilation (session r.2)) = 1
  ∧ compile_calls (world r.2) = 1
  ∧ assets (compilation (session r.2)) = {[ "templates.gbx" := "bytecodeBlob" ]}.
Proof. vm_compute. repeat split. Qed.

Example scenario_guard_answers :
  (trace sample_compile sample_unseal sample_events sample_build).1
    = [true; false; false].
Proof. vm_compute. reflexivity. Qed.

(** No placeholder: the bundle is still compiled once, nothing is rebuilt,
    and the reseal is still asked for once. *)
Example scenario_no_placeholder :
  match this_compilation no_error "/app" empty_compilation sample_world with
  | (Return s, w) =>
      let r := seal sample_compile sample_unseal mark_used 2 [] {| world := w; session := s |} in
      r.1 = Done
      ∧ rebuildModule_calls (compilation (session r.2)) = []
      ∧ compile_calls (world r.2) = 1
      ∧ finish_calls (compilation (session r.2)) = 1
      ∧ resealed (session r.2) = true
  | (Throw _, _) => False
  end.
Proof. vm_compute. repeat split. Qed.

(** A rebuild that is never called back leaves the phase open. *)
Example scenario_stalled :
  (seal sample_compile sample_unseal mark_used 2 [[(0, None)]] sample_build).1 = Stalled.
Proof. vm_compute. reflexivity. Qed.

(** A placeholder registered after a new session has started goes to the new
    session's list; the list of the session before keeps what it had. *)
Example scenario_next_session :
  match this_compilation no_error "/app" empty_compilation (world sample_build) with
  | (Return s, w) =>
      let w' := addDataSegmentModule 12 w in
      array (modArrays (store w')) (dataSegmentModules s) = [12]
      ∧ array (modArrays (store w')) (dataSegmentModules (session sample_build))
          = [10; 11]
      ∧ (templates <$> This.bundle (this w')) = Some []
  | (Throw _, _) => False
  end.
Proof. vm_compute. repeat split. Qed.


(** * Further properties *)

(** ** Setting the plugin up *)

(** X1: [apply] takes the context of the options when it is a non-empty
    string, whatever the compiler has; otherwise it takes the compiler's
    context, an empty string included; with neither it throws "expected
    compiler to have a context" and plugs nothing.  When it returns, it has
    plugged exactly one 'this-compilation' handler, after those already
    there. *)
Theorem apply_context (this : This.t) (compiler : Compiler) :
  (∀ c, PluginOptions.context (This.options this) = Some c → c ≠ "" →
        apply this compiler = Return (plug_this_compilation c compiler))
  ∧ (truthy (PluginOptions.context (This.options this)) = false →
     ∀ c, compiler_context compiler = Some c →
          apply this compiler = Return (plug_this_compilation c compiler))
  ∧ (truthy (PluginOptions.context (This.options this)) = false →
     compiler_context compiler = None →
     apply this compiler = Throw "expected compiler to have a context")
  ∧ (∀ compiler', apply this compiler = Return compiler' →
       ∃ inputPath,
         this_compilation_handlers compiler' =
           this_compilation_handlers compiler ++ [inputPath]).
Proof.
  unfold apply, js_or. split; [| split; [| split]].
  - intros c Hc Hne. rewrite Hc. cbn.
    destruct (String.eqb_spec c ""); [done |]. reflexivity.
  - intros Hf c Hc. unfold plug_this_compilation. rewrite Hf, Hc. reflexivity.
  - intros Hf Hc. rewrite Hf, Hc. reflexivity.
  - intros compiler' H.
    destruct (if truthy _ then _ else _) as [c |]; cbn in H; [| discriminate].
    injection H as <-. by exists c.
Qed.

Lemma apply_context_witness :
  apply sample_instance bare_compiler = Return (plug_this_compilation "/app" bare_compiler)
  ∧ apply {| This.self := 0; This.options := delegate_options_sample;
             This.outputFile := "templates.gbx";
             This.CompilerDelegate := Some (UserDelegate "MyDelegate");
             This.mode := None; This.dataSegmentModules := 0;
             This.loaderOptions := 0; This.bundle := None |}
          {| compiler_context := None; this_compilation_handlers := [] |}
      = Throw "expected compiler to have a context".
Proof.
  split.
  - apply (proj1 (apply_context sample_instance bare_compiler) "/app");
      [reflexivity | discriminate].
  - apply (proj1 (proj2 (proj2 (apply_context _ _)))); reflexivity.
Defined.

(** X2: the constructor throws exactly when the mode is a non-empty string
    and a delegate class is given as well; an empty mode beside a delegate
    class passes.  When it returns, the instance holds the options, has no
    bundle yet, and its [dataSegmentModules] is a newly allocated empty array:
    no array that existed before is changed. *)
Theorem constructor_throws_iff (options : PluginOptions.t) (σ : Store) :
  ((∃ e, constructor options σ = Throw e) ↔
     (∃ m, PluginOptions.mode options = Some m ∧ m ≠ "")
     ∧ is_Some (PluginOptions.CompilerDelegate options))
  ∧ ∀ this σ', constructor options σ = Return (this, σ') →
      This.options this = options
      ∧ This.outputFile this = PluginOptions.output options
      ∧ This.bundle this = None
      ∧ array (modArrays σ') (This.dataSegmentModules this) = []
      ∧ modArrays σ !! This.dataSegmentModules this = None
      ∧ ∀ a, a ≠ This.dataSegmentModules this →
             modArrays σ' !! a = modArrays σ !! a.
Proof.
  unfold constructor. split.
  - split.
    + intros [e H].
      destruct (truthy (PluginOptions.mode options)) eqn:Hm; [| discriminate].
      destruct (bool_decide _) eqn:Hd; [| discriminate].
      apply bool_decide_eq_true in Hd. split; [| done].
      unfold truthy in Hm. destruct (PluginOptions.mode options) as [m |]; [| done].
      exists m. split; [done |]. intros ->. discriminate.
    + intros [(m & Hm & Hne) Hd]. rewrite Hm, (bool_decide_eq_true_2 _ Hd). cbn.
      destruct (String.eqb_spec m ""); [done |]. eauto.
  - intros this σ' H. destruct (_ && _); [discriminate |].
    injection H as <- <-. cbn.
    split; [done |]. split; [done |]. split; [done |].
    split; [unfold array; by rewrite lookup_insert_eq |].
    split; [apply not_elem_of_dom, is_fresh |].
    intros a Ha. by rewrite lookup_insert_ne.
Qed.

Lemma constructor_throws_iff_witness :
  (∃ e, constructor both_options initial_store = Throw e)
  ∧ ∃ this σ', constructor delegate_options_sample initial_store = Return (this, σ')
               ∧ This.options this = delegate_options_sample
               ∧ array (modArrays σ') (This.dataSegmentModules this) = [].
Proof.
  split.
  - apply (proj1 (constructor_throws_iff both_options initial_store)).
    split; [exists "module-unification"; by split | by eexists].
  - eexists _, _. split; [reflexivity |].
    pose proof (proj2 (constructor_throws_iff delegate_options_sample initial_store)
                  _ _ eq_refl) as H.
    split; apply H.
Defined.

Lemma getCompilerDelegateFor_explicit
    (new_error : Constructor → DelegateOptions → option Error)
    (options : PluginOptions.t) (inputPath : string) (C : Constructor) :
  PluginOptions.CompilerDelegate options = Some C →
  getCompilerDelegateFor new_error options inputPath =
    new_CompilerDelegate new_error C (delegate_arguments options inputPath).
Proof.
  intros H. unfold getCompilerDelegateFor. by rewrite H.
Qed.

(** X3: a build session starts, that is the 'this-compilation' handler
    returns instead of throwing, exactly when the options name a delegate
    class, by [CompilerDelegate] or else by the mode 'module-unification' for
    the built-in class, and the constructor of that class does not throw on
    the arguments the plugin passes it.  With a [CompilerDelegate] the mode
    is not looked at: an error of its constructor is the error of the
    handler, and otherwise the bundle of the session is built on that
    class. *)
Theorem this_compilation_starts_iff
    (new_error : Constructor → DelegateOptions → option Error)
    (inputPath : string) (compilation_ : Compilation)
    (w : World) :
  ((∃ s w1, this_compilation new_error inputPath compilation_ w = (Return s, w1)) ↔
     ∃ C, (PluginOptions.CompilerDelegate (This.options (this w)) = Some C
           ∨ (PluginOptions.CompilerDelegate (This.options (this w)) = None
              ∧ PluginOptions.mode (This.options (this w)) = Some "module-unification"
              ∧ C = MUCompilerDelegate))
          ∧ new_error C (delegate_arguments (This.options (this w)) inputPath) = None)
  ∧ (∀ C e,
       PluginOptions.CompilerDelegate (This.options (this w)) = Some C →
       new_error C (delegate_arguments (This.options (this w)) inputPath) = Some e →
       (this_compilation new_error inputPath compilation_ w).1 = Throw e)
  ∧ ∀ C s w1,
      PluginOptions.CompilerDelegate (This.options (this w)) = Some C →
      this_compilation new_error inputPath compilation_ w = (Return s, w1) →
      delegate_class <$> (delegate <$> This.bundle (this w1)) = Some C.
Proof.
  unfold this_compilation, reset_dataSegmentModules, getBundleFor.
  cbn [this This.options]. split; [| split].
  - split.
    + intros (s & w1 & H).
      destruct (PluginOptions.CompilerDelegate (This.options (this w))) as [C |] eqn:HC.
      * exists C. split; [by left |].
        rewrite (getCompilerDelegateFor_explicit new_error _ inputPath C HC) in H.
        unfold new_CompilerDelegate in H.
        by destruct (new_error C _).
      * destruct (decide (PluginOptions.mode (This.options (this w))
                          = Some "module-unification")) as [Hm | Hm].
        -- exists MUCompilerDelegate. split; [by right |].
           rewrite (getCompilerDelegateFor_module_unification new_error _ inputPath
                      HC Hm) in H.
           unfold new_CompilerDelegate in H.
           by destruct (new_error MUCompilerDelegate _).
        -- rewrite (getCompilerDelegateFor_unrecognized new_error _ inputPath HC Hm) in H.
           discriminate.
    + intros (C & [HC | (HC & Hm & ->)] & Hnew).
      * rewrite (getCompilerDelegateFor_explicit new_error _ inputPath C HC).
        unfold new_CompilerDelegate. rewrite Hnew. cbn. eauto.
      * rewrite (getCompilerDelegateFor_module_unification new_error _ inputPath HC Hm).
        unfold new_CompilerDelegate. rewrite Hnew. cbn. eauto.
  - intros C e HC Hnew.
    rewrite (getCompilerDelegateFor_explicit new_error _ inputPath C HC).
    unfold new_CompilerDelegate. by rewrite Hnew.
  - intros C s w1 HC.
    rewrite (getCompilerDelegateFor_explicit new_error _ inputPath C HC).
    unfold new_CompilerDelegate. destruct (new_error C _); cbn; [discriminate |].
    by intros [= <- <-].
Qed.

Lemma this_compilation_starts_iff_witness :
  (∃ s w1, this_compilation no_error "/app" empty_compilation sample_world
             = (Return s, w1))
  ∧ (¬ ∃ s w1, this_compilation missing_project "/app" empty_compilation sample_world
                 = (Return s, w1))
  ∧ (this_compilation missing_project "/app" empty_compilation
       {| store := store sample_world;
          this := {| This.self := 0; This.options := delegate_options_sample;
                     This.outputFile := "templates.gbx";
                     This.CompilerDelegate := Some (UserDelegate "MyDelegate");
                     This.mode := None;
                     This.dataSegmentModules := 0; This.loaderOptions := 0;
                     This.bundle := None |};
          mods := mods sample_world; compile_calls := 0 |}).1
      = Throw "no project at /app".
Proof.
  split; [| split].
  - apply (proj1 (this_compilation_starts_iff no_error "/app" empty_compilation
                    sample_world)).
    exists MUCompilerDelegate. split; [right |]; done.
  - intros H.
    apply (proj1 (this_compilation_starts_iff missing_project "/app" empty_compilation
                    sample_world)) in H.
    destruct H as (C & _ & H). discriminate.
  - apply (proj1 (proj2 (this_compilation_starts_iff missing_project "/app"
                           empty_compilation _)) (UserDelegate "MyDelegate"));
      reflexivity.
Defined.

(** X4: whatever delegate is resolved, it is built for the input path as its
    project, with the output file names 'table.js' and 'templates.gbx' and
    the builtins of the options; it is given a main template locator, naming
    the 'default' export of [mainPath], exactly when [mainPath] is a
    non-empty string. *)
Theorem getCompilerDelegateFor_options
    (new_error : Constructor → DelegateOptions → option Error)
    (options : PluginOptions.t)
    (inputPath : string) (d : Delegate) :
  getCompilerDelegateFor new_error options inputPath = Return d →
  projectPath (delegate_options d) = inputPath
  ∧ outputFiles (delegate_options d) =
      {| dataSegment := "table.js"; heapFile := "templates.gbx" |}
  ∧ builtins (delegate_options d) = PluginOptions.builtins options
  ∧ (∀ m, PluginOptions.mainPath options = Some m → m ≠ "" →
          mainTemplateLocator (delegate_options d) =
            Some {| module := m; name := "default" |})
  ∧ (PluginOptions.mainPath options = None ∨ PluginOptions.mainPath options = Some "" →
     mainTemplateLocator (delegate_options d) = None).
Proof.
  unfold getCompilerDelegateFor.
  destruct (match PluginOptions.CompilerDelegate options with
            | Some C => _ | None => _ end) as [C | e]; cbn; [| discriminate].
  intros Hnew. apply new_CompilerDelegate_Return in Hnew as [_ ->].
  cbn. split; [done |]. split; [done |]. split; [done |]. split.
  - intros m Hm Hne. rewrite Hm. cbn. destruct (String.eqb_spec m ""); done.
  - intros [-> | ->]; done.
Qed.

Lemma getCompilerDelegateFor_options_witness :
  ∃ d, getCompilerDelegateFor no_error mu_options "/app" = Return d
       ∧ projectPath (delegate_options d) = "/app"
       ∧ mainTemplateLocator (delegate_options d) =
           Some {| module := "src/ui/components/Main/template.hbs"; name := "default" |}.
Proof.
  eexists. split; [reflexivity |].
  pose proof (getCompilerDelegateFor_options no_error mu_options "/app" _ eq_refl)
    as (H1 & _ & _ & H2 & _).
  split; [exact H1 |]. apply H2; [reflexivity | discriminate].
Defined.

(** ** Loader rules and instances *)

Lemma array_push_ne (a a' x : loc) (h : gmap loc (list loc)) :
  a ≠ a' → array (push a x h) a' = array h a'.
Proof. intros Hne. unfold array, push. by rewrite lookup_insert_ne. Qed.

Lemma array_elem_allocated (h : gmap loc (list loc)) (a x : loc) :
  x ∈ array h a → is_Some (h !! a).
Proof.
  unfold array. destruct (h !! a); [eauto |]. intros H. by apply not_elem_of_nil in H.
Qed.

(** X5: the options object of a rule made by a static loader factory is
    attached to the next instance constructed, however many static factories
    are called in between: its [compiler] is that instance, and it is in the
    instance's [loaderOptions] list. *)
Theorem loader_then_constructor (loaderPath : string) (paths : list string)
    (options : PluginOptions.t) (σ σ' : Store) (this : This.t) :
  constructor options (loaders paths (loader loaderPath σ).2) = Return (this, σ') →
  optObjs σ' !! rule_options (loader loaderPath σ).1 =
    Some {| compiler := Some (This.self this) |}
  ∧ rule_options (loader loaderPath σ).1 ∈ array (optArrays σ') (This.loaderOptions this).
Proof.
  intros Hctor.
  destruct (loaders_spec paths (loader loaderPath σ).2) as (Hg & _ & (new & Hnew & _) & _).
  cbn [loader snd fst loaderOptions optArrays rule_options] in *.
  set (o := fresh (dom (optObjs σ))) in *.
  set (σ2 := loaders paths _) in *.
  rewrite array_push_eq in Hnew.
  assert (o ∈ array (optArrays σ2) (loaderOptions σ2)) as Hin.
  { rewrite Hg, Hnew. apply elem_of_app. left. apply elem_of_app. right. by left. }
  unfold constructor in Hctor. destruct (_ && _); [discriminate |].
  injection Hctor as <- <-. cbn. split.
  - rewrite attach_lookup. by rewrite decide_True.
  - unfold array at 1. rewrite lookup_insert_ne; [exact Hin |].
    intros Heq. apply (is_fresh (dom (optArrays σ2))). rewrite Heq.
    apply elem_of_dom. by eapply array_elem_allocated.
Qed.

Lemma loader_then_constructor_witness :
  ∃ this σ',
    constructor mu_options
      (loaders ["./loaders/component"] (Static.data initial_store).2) = Return (this, σ')
    ∧ optObjs σ' !! rule_options (Static.data initial_store).1 =
        Some {| compiler := Some (This.self this) |}.
Proof.
  eexists _, _. split; [reflexivity |].
  apply (loader_then_constructor "./loaders/data" ["./loaders/component"] mu_options
           initial_store _ _ eq_refl).
Defined.

(** X6: a static loader factory called after an instance has been
    constructed makes an options object with no [compiler], which is not in
    that instance's list: it waits, alone in the shared list, for the next
    instance. *)
Theorem loader_after_constructor (options : PluginOptions.t) (σ σ' : Store)
    (this : This.t) (loaderPath : string) :
  is_Some (optArrays σ !! loaderOptions σ) →
  constructor options σ = Return (this, σ') →
  optObjs (loader loaderPath σ').2 !! rule_options (loader loaderPath σ').1 =
    Some {| compiler := None |}
  ∧ (rule_options (loader loaderPath σ').1
       ∉ array (optArrays (loader loaderPath σ').2) (This.loaderOptions this))
  ∧ array (optArrays (loader loaderPath σ').2) (loaderOptions (loader loaderPath σ').2) =
      [rule_options (loader loaderPath σ').1].
Proof.
  intros Hglobal Hctor. unfold constructor in Hctor.
  destruct (_ && _); [discriminate |]. injection Hctor as <- <-.
  cbn [loader snd fst loaderOptions optArrays optObjs rule_options This.loaderOptions].
  assert (fresh (dom (optArrays σ)) ≠ loaderOptions σ) as Hne.
  { intros Heq. apply (is_fresh (dom (optArrays σ))). rewrite Heq. by apply elem_of_dom. }
  split; [by rewrite lookup_insert_eq |]. split.
  - rewrite array_push_ne by done.
    assert (array (<[fresh (dom (optArrays σ)) := []]> (optArrays σ)) (loaderOptions σ)
            = array (optArrays σ) (loaderOptions σ)) as ->
      by (unfold array; by rewrite lookup_insert_ne).
    intros Hin.
    apply (is_fresh (dom (attach (fresh (instances σ))
                            (array (optArrays σ) (loaderOptions σ)) (optObjs σ)))).
    apply elem_of_dom. rewrite attach_lookup. rewrite decide_True by done. eauto.
  - rewrite array_push_eq. unfold array. by rewrite lookup_insert_eq.
Qed.

Lemma loader_after_constructor_witness :
  ∃ this σ',
    is_Some (optArrays two_loaders_store !! loaderOptions two_loaders_store)
    ∧ constructor mu_options two_loaders_store = Return (this, σ')
    ∧ optObjs (Static.template σ').2 !! rule_options (Static.template σ').1 =
        Some {| compiler := None |}
    ∧ array (optArrays (Static.template σ').2) (This.loaderOptions this) = [0; 1].
Proof.
  eexists _, _. split; [by eexists |]. split; [reflexivity |].
  split; [| reflexivity].
  eapply (loader_after_constructor mu_options two_loaders_store);
    [by eexists | reflexivity].
Defined.

(** X7: the options object of a rule made by a factory of an instance
    carries that instance from the start and goes to the instance's own
    list; the shared list is left as it was, so an instance constructed later
    does not take the object over. *)
Theorem instanceLoader_bound (loaderPath : string) (this : This.t) (σ : Store) :
  This.loaderOptions this ≠ loaderOptions σ →
  Forall (λ o, is_Some (optObjs σ !! o)) (array (optArrays σ) (loaderOptions σ)) →
  let r := (instanceLoader loaderPath this σ).1 in
  let σ1 := (instanceLoader loaderPath this σ).2 in
  optObjs σ !! rule_options r = None
  ∧ optObjs σ1 !! rule_options r = Some {| compiler := Some (This.self this) |}
  ∧ array (optArrays σ1) (This.loaderOptions this) =
      array (optArrays σ) (This.loaderOptions this) ++ [rule_options r]
  ∧ loaderOptions σ1 = loaderOptions σ
  ∧ array (optArrays σ1) (loaderOptions σ1) = array (optArrays σ) (loaderOptions σ)
  ∧ ∀ options that σ2,
      constructor options σ1 = Return (that, σ2) →
      optObjs σ2 !! rule_options r = Some {| compiler := Some (This.self this) |}.
Proof.
  intros Hne Hwf r σ1. subst r σ1.
  cbn [instanceLoader snd fst loaderOptions optArrays optObjs rule_options].
  pose proof (is_fresh (dom (optObjs σ))) as Hfresh. apply not_elem_of_dom in Hfresh.
  split; [done |]. split; [by rewrite lookup_insert_eq |].
  split; [apply array_push_eq |]. split; [done |].
  split; [by apply array_push_ne |].
  intros options that σ2 Hctor. unfold constructor in Hctor.
  destruct (_ && _); [discriminate |]. injection Hctor as <- <-. cbn.
  rewrite attach_lookup, array_push_ne by done.
  rewrite decide_False; [by rewrite lookup_insert_eq |].
  intros Hin. rewrite Forall_forall in Hwf. specialize (Hwf _ Hin).
  rewrite Hfresh in Hwf. by destruct Hwf.
Qed.

Lemma instanceLoader_bound_witness :
  This.loaderOptions sample_instance ≠ loaderOptions sample_store
  ∧ optObjs (Instance.data sample_instance sample_store).2
      !! rule_options (Instance.data sample_instance sample_store).1 =
      Some {| compiler := Some (This.self sample_instance) |}
  ∧ array (optArrays (Instance.data sample_instance sample_store).2)
          (This.loaderOptions sample_instance) =
      [0; 1; rule_options (Instance.data sample_instance sample_store).1].
Proof.
  assert (This.loaderOptions sample_instance ≠ loaderOptions sample_store) as Hne
    by (vm_compute; lia).
  split; [exact Hne |].
  pose proof (instanceLoader_bound "./loaders/data" sample_instance sample_store Hne)
    as H.
  destruct H as (_ & Hbound & Hlist & _).
  - vm_compute. constructor.
  - split; [exact Hbound | exact Hlist].
Defined.

(** ** Discovery *)

(** What one registration does to the world: the placeholder list of the
    running session grows by the placeholder registered, if it is one; no
    other list changes; the instance keeps its list, its options and, once
    it has one, a bundle; the modules and the count of compilations are not
    touched. *)
Lemma discover_spec (d : Discovery) (w : World) :
  This.dataSegmentModules (this (discover d w)) = This.dataSegmentModules (this w)
  ∧ This.options (this (discover d w)) = This.options (this w)
  ∧ (is_Some (This.bundle (this w)) → is_Some (This.bundle (this (discover d w))))
  ∧ mods (discover d w) = mods w
  ∧ compile_calls (discover d w) = compile_calls w
  ∧ array (modArrays (store (discover d w))) (This.dataSegmentModules (this w)) =
      array (modArrays (store w)) (This.dataSegmentModules (this w)) ++ placeholders_of [d]
  ∧ ∀ a, a ≠ This.dataSegmentModules (this w) →
         modArrays (store (discover d w)) !! a = modArrays (store w) !! a.
Proof.
  destruct d as [m | path template scope | path ast]; cbn [discover].
  - cbn. split; [done |]. split; [done |]. split; [done |]. split; [done |].
    split; [done |]. split; [apply array_push_eq |].
    intros a Ha. unfold push. by rewrite lookup_insert_ne.
  - unfold addComponent. destruct (This.bundle (this w)); cbn;
      rewrite app_nil_r;
      (split; [done |]; split; [done |]; split; [by eauto |]; done).
  - unfold addAST. destruct (This.bundle (this w)); cbn;
      rewrite app_nil_r;
      (split; [done |]; split; [done |]; split; [by eauto |]; done).
Qed.

Lemma discovery_spec (ds : list Discovery) (w : World) :
  This.dataSegmentModules (this (discovery ds w)) = This.dataSegmentModules (this w)
  ∧ This.options (this (discovery ds w)) = This.options (this w)
  ∧ (is_Some (This.bundle (this w)) → is_Some (This.bundle (this (discovery ds w))))
  ∧ mods (discovery ds w) = mods w
  ∧ compile_calls (discovery ds w) = compile_calls w
  ∧ array (modArrays (store (discovery ds w))) (This.dataSegmentModules (this w)) =
      array (modArrays (store w)) (This.dataSegmentModules (this w)) ++ placeholders_of ds
  ∧ ∀ a, a ≠ This.dataSegmentModules (this w) →
         modArrays (store (discovery ds w)) !! a = modArrays (store w) !! a.
Proof.
  unfold discovery. revert w. induction ds as [| d ds IH]; intros w; cbn [foldl].
  - cbn. rewrite app_nil_r. done.
  - destruct (discover_spec d w) as (Hr & Ho & Hb & Hm & Hc & Ha & Hother).
    destruct (IH (discover d w)) as (Hr' & Ho' & Hb' & Hm' & Hc' & Ha' & Hother').
    rewrite Hr in *.
    split; [congruence |]. split; [congruence |]. split; [auto |].
    split; [congruence |]. split; [congruence |]. split.
    + rewrite Ha', Ha, <- app_assoc. f_equal.
      unfold placeholders_of. by destruct d.
    + intros a Hne. rewrite Hother' by done. by apply Hother.
Qed.

Lemma this_compilation_Return
    (new_error : Constructor → DelegateOptions → option Error)
    (inputPath : string) (compilation_ : Compilation)
    (w w1 : World) (s : Session) :
  this_compilation new_error inputPath compilation_ w = (Return s, w1) →
  dataSegmentModules s = This.dataSegmentModules (this w1)
  ∧ dataSegmentModules s = fresh (dom (modArrays (store w)))
  ∧ array (modArrays (store w1)) (dataSegmentModules s) = []
  ∧ (∀ a, a ≠ dataSegmentModules s →
          modArrays (store w1) !! a = modArrays (store w) !! a)
  ∧ is_Some (This.bundle (this w1))
  ∧ mods w1 = mods w
  ∧ resealed s = false
  ∧ compilation s = compilation_.
Proof.
  unfold this_compilation, reset_dataSegmentModules, getBundleFor.
  cbn [this This.options].
  destruct (getCompilerDelegateFor new_error (This.options (this w)) inputPath)
    as [delegate | e]; cbn; [| discriminate].
  intros [= <- <-]. cbn.
  split; [done |]. split; [done |].
  split; [unfold array; by rewrite lookup_insert_eq |].
  split; [intros a Ha; by rewrite lookup_insert_ne |]. eauto 10.
Qed.

(** X8: on an instance as the constructor leaves it, before any build has
    started, [addComponent] and [addAST] throw and change nothing, for there
    is no bundle yet; once a 'this-compilation' handler has returned they
    return normally, whatever has been registered since. *)
Theorem addComponent_needs_session (options : PluginOptions.t) (σ σ' : Store)
    (w : World) (path template scope ast : string) :
  constructor options σ = Return (this w, σ') →
  (∃ e, addComponent path template scope w = (Throw e, w))
  ∧ (∃ e, addAST path ast w = (Throw e, w))
  ∧ ∀ new_error inputPath compilation_ s w1 ds,
      this_compilation new_error inputPath compilation_ w = (Return s, w1) →
      (addComponent path template scope (discovery ds w1)).1 = Return ()
      ∧ (addAST path ast (discovery ds w1)).1 = Return ().
Proof.
  intros Hctor.
  assert (This.bundle (this w) = None) as Hnone.
  { unfold constructor in Hctor. destruct (_ && _); [discriminate |].
    injection Hctor as Hthis _. by rewrite <- Hthis. }
  unfold addComponent, addAST. rewrite Hnone.
  split; [eauto |]. split; [eauto |].
  intros new_error inputPath compilation_ s w1 ds Hstart.
  destruct (this_compilation_Return _ _ _ _ _ _ Hstart) as (_ & _ & _ & _ & Hb & _).
  destruct (discovery_spec ds w1) as (_ & _ & Hkeep & _).
  destruct (Hkeep Hb) as [bundle ->]. done.
Qed.

Lemma addComponent_needs_session_witness :
  (∃ e, addComponent "ui/components/Main" "<h1>Hi</h1>" "{}" fresh_world
          = (Throw e, fresh_world))
  ∧ ∃ s w1,
      this_compilation no_error "/app" empty_compilation fresh_world = (Return s, w1)
      ∧ (addComponent "ui/components/Main" "<h1>Hi</h1>" "{}"
           (discovery [DataSegmentModule 10] w1)).1 = Return ().
Proof.
  pose proof (addComponent_needs_session mu_options two_loaders_store sample_store
                fresh_world "ui/components/Main" "<h1>Hi</h1>" "{}" "ast" eq_refl)
    as (H1 & _ & H2).
  split; [exact H1 |].
  eexists _, _. split; [reflexivity |].
  eapply (proj1 (H2 no_error "/app" empty_compilation _ _ [DataSegmentModule 10] eq_refl)).
Defined.

(** X9: the placeholders the loaders register after a session has started
    are, in the order registered and with their repetitions, the list the
    session's 'optimize-tree' handler works on: when the bundle compiles, it
    requests one rebuild for each, in that order, and each holds the data
    segment. *)
Theorem discovery_registers (compile : Bundle → Result (Source * Source))
    (new_error : Constructor → DelegateOptions → option Error)
    (inputPath : string) (compilation_ : Compilation) (w w1 : World) (s : Session)
    (ds : list Discovery) :
  this_compilation new_error inputPath compilation_ w = (Return s, w1) →
  let b := {| world := discovery ds w1; session := s |} in
  array (modArrays (store (world b))) (dataSegmentModules s) = placeholders_of ds
  ∧ ∀ bundle bytecode data,
      This.bundle (this (world b)) = Some bundle →
      compile bundle = Return (bytecode, data) →
      rebuildModule_calls (compilation (session (optimize_tree compile b).2)) =
        rebuildModule_calls compilation_ ++ placeholders_of ds
      ∧ ∀ m, m ∈ placeholders_of ds →
             __table <$> mods (world (optimize_tree compile b).2) !! m = Some (Some data).
Proof.
  intros Hstart b.
  destruct (this_compilation_Return _ _ _ _ _ _ Hstart)
    as (Hreg & _ & Hempty & _ & _ & _ & Hr & Hc).
  destruct (discovery_spec ds w1) as (_ & _ & _ & _ & _ & Harr & _).
  rewrite <- Hreg, Hempty in Harr. cbn in Harr.
  split; [exact Harr |].
  intros bundle bytecode data Hb Hcompile.
  rewrite (optimize_tree_compiles compile b bundle bytecode data Hr Hb Hcompile).
  cbn [snd world session compilation rebuildModule_calls mods].
  subst b. cbn [world session store]. rewrite Harr, Hc. split; [done |].
  intros m Hm. rewrite foldl_update_lookup by apply set_table_idem.
  by rewrite decide_True.
Qed.

Lemma discovery_registers_witness :
  ∃ s w1,
    this_compilation no_error "/app" empty_compilation fresh_world = (Return s, w1)
    ∧ array (modArrays (store (discovery [DataSegmentModule 11; AST "a" "b";
                                          DataSegmentModule 10; DataSegmentModule 11] w1)))
            (dataSegmentModules s) = [11; 10; 11].
Proof.
  eexists _, _. split; [reflexivity |].
  apply (discovery_registers sample_compile no_error "/app" empty_compilation fresh_world _ _
           [DataSegmentModule 11; AST "a" "b"; DataSegmentModule 10; DataSegmentModule 11]
           eq_refl).
Defined.

(** X10: a placeholder registered after a new session has started never
    reaches the list of the session before: that list is what it was when
    the new session began. *)
Theorem late_registration_isolated
    (new_error : Constructor → DelegateOptions → option Error)
    (inputPath : string) (compilation_ : Compilation)
    (w w1 : World) (s : Session) (ds : list Discovery) :
  is_Some (modArrays (store w) !! This.dataSegmentModules (this w)) →
  this_compilation new_error inputPath compilation_ w = (Return s, w1) →
  This.dataSegmentModules (this w) ≠ dataSegmentModules s
  ∧ array (modArrays (store (discovery ds w1))) (This.dataSegmentModules (this w)) =
      array (modArrays (store w)) (This.dataSegmentModules (this w)).
Proof.
  intros Hold Hstart.
  destruct (this_compilation_Return _ _ _ _ _ _ Hstart)
    as (Hreg & Hfresh & _ & Hother & _).
  assert (This.dataSegmentModules (this w) ≠ dataSegmentModules s) as Hne.
  { intros Heq. apply (is_fresh (dom (modArrays (store w)))).
    rewrite <- Hfresh, <- Heq. by apply elem_of_dom. }
  split; [exact Hne |].
  destruct (discovery_spec ds w1) as (_ & _ & _ & _ & _ & _ & Hkeep).
  unfold array. rewrite Hkeep by (by rewrite <- Hreg). by rewrite Hother.
Qed.

Lemma late_registration_isolated_witness :
  is_Some (modArrays (store (world sample_build))
             !! This.dataSegmentModules (this (world sample_build)))
  ∧ array (modArrays (store (world sample_build)))
          (This.dataSegmentModules (this (world sample_build))) = [10; 11]
  ∧ array (modArrays (store (discovery [DataSegmentModule 12]
             (this_compilation no_error "/app" empty_compilation (world sample_build)).2)))
          (This.dataSegmentModules (this (world sample_build))) =
      array (modArrays (store (world sample_build)))
            (This.dataSegmentModules (this (world sample_build))).
Proof.
  split; [by eexists |]. split; [by vm_compute |].
  destruct (this_compilation no_error "/app" empty_compilation (world sample_build))
    as [[s | e] w1] eqn:Hstart.
  - apply (late_registration_isolated no_error "/app" empty_compilation (world sample_build)
             w1 s [DataSegmentModule 12]); [by eexists | exact Hstart].
  - vm_compute in Hstart. discriminate.
Defined.

(** ** The phase callback *)

(** X11: whatever the host reports for the rebuilds, in whatever order and
    however often, the callback of a run of the 'optimize-tree' handler is
    called at most once; and once it has been called, nothing the host
    reports later changes what it received. *)
Theorem cb_called_at_most_once (compile : Bundle → Result (Source * Source))
    (b b' : Build) (phase : Phase) (evs evs' : list (nat * option Error)) :
  optimize_tree compile b = (Return phase, b') →
  (length (cb_calls (callbacks evs phase)) ≤ 1)%nat
  ∧ (cb_calls (callbacks evs phase) ≠ [] →
     cb_calls (callbacks (evs ++ evs') phase) = cb_calls (callbacks evs phase)).
Proof.
  intros Hrun.
  assert (∃ a, cb_calls (callbacks evs phase) = then_cb a
               ∧ (a ≠ Pending → all (callbacks evs phase) ≠ Some Pending)) as (a & Hcb & Ha).
  { destruct (resealed (session b)) eqn:Hr.
    - rewrite optimize_tree_resealed in Hrun by done. injection Hrun as <- _.
      destruct (callbacks_settled evs called_back) as [Hall ->]; [done |].
      exists Fulfilled. split; [done |]. intros _. by rewrite Hall.
    - destruct (This.bundle (this (world b))) as [bundle |] eqn:Hb.
      2:{ unfold optimize_tree in Hrun. rewrite Hr, Hb in Hrun. discriminate. }
      destruct (compile bundle) as [[bytecode data] | e] eqn:Hc.
      2:{ rewrite (optimize_tree_throws compile b bundle e Hr Hb Hc) in Hrun.
          discriminate. }
      rewrite (optimize_tree_compiles compile b bundle bytecode data Hr Hb Hc) in Hrun.
      injection Hrun as <- _.
      destruct (callbacks_invariant
                  (length (array (modArrays (store (world b)))
                                 (dataSegmentModules (session b)))) evs)
        as (_ & _ & _ & a & Hall & Hcb).
      exists a. split; [done |]. intros Hne. rewrite Hall. congruence. }
  split.
  - rewrite Hcb. destruct a; cbn; lia.
  - intros Hcalled. rewrite callbacks_app.
    apply callbacks_settled, Ha. intros ->. by rewrite Hcb in Hcalled.
Qed.

Lemma cb_called_at_most_once_witness :
  ∃ phase b',
    optimize_tree sample_compile sample_build = (Return phase, b')
    ∧ cb_calls (callbacks [(0, None); (1, Some "E")] phase) = [Some "E"]
    ∧ cb_calls (callbacks ([(0, None); (1, Some "E")] ++ [(1, None); (0, Some "F")]) phase)
        = cb_calls (callbacks [(0, None); (1, Some "E")] phase).
Proof.
  eexists _, _. split; [reflexivity |]. split; [by vm_compute |].
  eapply (cb_called_at_most_once sample_compile sample_build); [reflexivity |].
  by vm_compute.
Defined.

(** ** Resealing *)

(** X12: the 'need-additional-seal' handler clears usage marks and nothing
    else: every module keeps its [resource], its [_source] and its [__table],
    so the data segment written into the placeholders survives the reset;
    modules outside [compilation.modules] are not touched at all; and the
    asset map, the rebuild requests, the plugged handlers, the heap of lists
    and the instance are as before. *)
Theorem reseal_keeps_data_segment (b : Build) :
  (∀ m x, mods (world b) !! m = Some x →
          ∃ y, mods (world (need_additional_seal_handler b).2) !! m = Some y
               ∧ __table y = __table x ∧ resource y = resource x
               ∧ _source y = _source x)
  ∧ (∀ m, m ∉ modules (compilation (session b)) →
          mods (world (need_additional_seal_handler b).2) !! m = mods (world b) !! m)
  ∧ assets (compilation (session (need_additional_seal_handler b).2)) =
      assets (compilation (session b))
  ∧ rebuildModule_calls (compilation (session (need_additional_seal_handler b).2)) =
      rebuildModule_calls (compilation (session b))
  ∧ additional_assets (compilation (session (need_additional_seal_handler b).2)) =
      additional_assets (compilation (session b))
  ∧ store (world (need_additional_seal_handler b).2) = store (world b)
  ∧ this (world (need_additional_seal_handler b).2) = this (world b)
  ∧ compile_calls (world (need_additional_seal_handler b).2) = compile_calls (world b).
Proof.
  unfold need_additional_seal_handler.
  destruct (resealed (session b)); cbn [snd].
  { split; [eauto 10 | done]. }
  destruct (resetCompilation_spec b) as (Hin & Hout & _).
  change (world (with_resealed true (resetCompilation b)))
    with (world (resetCompilation b)).
  split; [| split; [exact Hout | done]].
  intros m x Hx. destruct (decide (m ∈ modules (compilation (session b)))) as [Hm | Hm].
  - exists (clear_usage x). rewrite (Hin m Hm).
    by rewrite (lookup_total_correct _ _ _ Hx).
  - exists x. by rewrite (Hout m Hm).
Qed.

Lemma reseal_keeps_data_segment_witness :
  (∃ x, mods (world sample_build) !! 10 = Some x ∧ resource x = "table.js")
  ∧ ∃ y, mods (world (need_additional_seal_handler sample_build).2) !! 10 = Some y
         ∧ resource y = "table.js" ∧ used y = None.
Proof.
  split; [eexists; split; reflexivity |].
  destruct (proj1 (reseal_keeps_data_segment sample_build) 10 _ eq_refl)
    as (y & Hy & _ & Hres & _).
  exists y. split; [exact Hy |]. split; [exact Hres |].
  vm_compute in Hy. injection Hy as <-. reflexivity.
Defined.

(** ** Whole builds *)

Section Builds.

Variable compile : Bundle → Result (Source * Source).
Variable unseal : gmap string Source → gmap string Source.
Variable flag_usage : gmap loc Module_ → gmap loc Module_.

(** X13: a build the seal loop completes went through exactly one reseal:
    the guard is tripped and [compilation.finish()] was called once;
    [Bundle.compile] was called once; one rebuild was requested for each
    registered placeholder, in order, and each of those requests was called
    back without an error.  The second pass of the host started from module
    objects in which every placeholder held the data segment of that
    compilation and every module of the compilation had its usage marks
    cleared; the module objects at the end are what the host's own steps of
    that pass made of them. *)
Theorem completed_build (passes : nat) (rebuilds : list (list (nat * option Error)))
    (b b' : Build) (bundle : Bundle) :
  resealed (session b) = false →
  This.bundle (this (world b)) = Some bundle →
  seal compile unseal flag_usage passes rebuilds b = (Done, b') →
  let placeholders :=
    array (modArrays (store (world b))) (dataSegmentModules (session b)) in
  resealed (session b') = true
  ∧ finish_calls (compilation (session b')) = S (finish_calls (compilation (session b)))
  ∧ compile_calls (world b') = S (compile_calls (world b))
  ∧ rebuildModule_calls (compilation (session b')) =
      rebuildModule_calls (compilation (session b)) ++ placeholders
  ∧ (∀ i, i < length placeholders → (i, None) ∈ hd [] rebuilds)
  ∧ ∃ bytecode data h,
      compile bundle = Return (bytecode, data)
      ∧ mods (world b') = flag_usage h
      ∧ (∀ m, m ∈ placeholders → ∃ y, h !! m = Some y ∧ __table y = Some data)
      ∧ (∀ m, m ∈ modules (compilation (session b)) →
              ∃ y, h !! m = Some y ∧ used y = None ∧ usedExports y = None).
Proof.
  intros Hr Hb Hseal placeholders.
  destruct passes as [| passes]; [discriminate |].
  destruct (compile bundle) as [[bytecode data] | e] eqn:Hc.
  2:{ cbn [seal] in Hseal.
      rewrite (optimize_tree_throws compile (host_steps flag_usage b) bundle e
                 Hr Hb Hc) in Hseal.
      discriminate. }
  rewrite (seal_compiles compile unseal flag_usage passes _ b bundle bytecode data
             Hr Hb Hc) in Hseal.
  rewrite (optimize_tree_compiles compile (host_steps flag_usage b) bundle
             bytecode data Hr Hb Hc) in Hseal.
  cbn [snd host_steps with_mods world session store] in Hseal.
  fold placeholders in Hseal.
  destruct (callbacks_invariant (length placeholders) (hd [] rebuilds))
    as (_ & Hful & Hall & a & Ha & Hcb).
  destruct (cb_calls _) as [| [e |] ?] eqn:Hcalls; [discriminate | discriminate |].
  assert (a = Fulfilled) as -> by (destruct a; by try discriminate).
  destruct passes as [| passes]; [discriminate |].
  rewrite seal_resealed in Hseal by done.
  injection Hseal as <-.
  rewrite !fire_additional_assets_eq. cbn.
  split; [done |]. split; [done |]. split; [done |]. split; [done |].
  split; [intros i Hi; by apply Hful, Hall |].
  exists bytecode, data. eexists. split; [done |]. split; [reflexivity |]. split.
  - intros m Hm. rewrite foldl_update_lookup by apply clear_usage_idem.
    destruct (decide _).
    + eexists. split; [done |]. cbn.
      erewrite lookup_total_correct; [| rewrite foldl_update_lookup
                                          by apply set_table_idem;
                                        by rewrite decide_True]. done.
    + eexists. split; [rewrite foldl_update_lookup by apply set_table_idem;
                       by rewrite decide_True |]. done.
  - intros m Hm. rewrite foldl_update_lookup by apply clear_usage_idem.
    rewrite decide_True by done. eexists. by split.
Qed.

(** X14: when the bundle compiles and the host calls every rebuild request
    back without an error, in any order and with any repetition, the seal
    loop completes the build, in its two passes. *)
Theorem build_completes (passes : nat) (evs : list (nat * option Error))
    (rest : list (list (nat * option Error))) (b : Build) (bundle : Bundle)
    (bytecode data : Source) :
  resealed (session b) = false →
  This.bundle (this (world b)) = Some bundle →
  compile bundle = Return (bytecode, data) →
  Forall (λ ev, ev.2 = None) evs →
  (∀ i, i < length (array (modArrays (store (world b))) (dataSegmentModules (session b))) →
        (i, None) ∈ evs) →
  (seal compile unseal flag_usage (S (S passes)) (evs :: rest) b).1 = Done.
Proof.
  intros Hr Hb Hc Hok Hcover.
  rewrite (seal_compiles compile unseal flag_usage _ _ b bundle bytecode data Hr Hb Hc).
  cbn [hd]. destruct (callbacks_all_rebuilt _ evs Hok Hcover) as [_ ->].
  by rewrite seal_resealed.
Qed.

(** X15: the guard is tripped by the 'need-additional-seal' handler only.
    When 'optimize-tree' is fired twice with no poll in between, the bundle
    is compiled twice, every placeholder gets a second rebuild request, and
    a second handler is plugged on each hook; the poll then runs the first
    handler alone, which resets the compilation once. *)
Theorem optimize_tree_twice (b : Build) (bundle : Bundle) (bytecode data : Source) :
  resealed (session b) = false →
  This.bundle (this (world b)) = Some bundle →
  compile bundle = Return (bytecode, data) →
  let placeholders :=
    array (modArrays (store (world b))) (dataSegmentModules (session b)) in
  let b2 := (optimize_tree compile (optimize_tree compile b).2).2 in
  compile_calls (world b2) = S (S (compile_calls (world b)))
  ∧ rebuildModule_calls (compilation (session b2)) =
      rebuildModule_calls (compilation (session b)) ++ placeholders ++ placeholders
  ∧ additional_assets (compilation (session b2)) =
      additional_assets (compilation (session b)) ++ [bytecode; bytecode]
  ∧ need_additional_seal (compilation (session b2)) =
      S (S (need_additional_seal (compilation (session b))))
  ∧ (fire_need_additional_seal b2).1 = true
  ∧ finish_calls (compilation (session (fire_need_additional_seal b2).2)) =
      S (finish_calls (compilation (session b))).
Proof.
  intros Hr Hb Hc placeholders b2. subst b2.
  rewrite (optimize_tree_compiles compile b bundle bytecode data Hr Hb Hc).
  cbn [snd]. fold placeholders.
  erewrite optimize_tree_compiles; [| done | exact Hb | exact Hc].
  cbn. fold placeholders. by rewrite <- !app_assoc.
Qed.

End Builds.

Lemma completed_build_witness :
  (∃ bundle, This.bundle (this (world sample_build)) = Some bundle)
  ∧ (seal sample_compile sample_unseal mark_used 2 [[(1, None); (0, None)]] sample_build).1 = Done
  ∧ finish_calls (compilation (session
      (seal sample_compile sample_unseal mark_used 2 [[(1, None); (0, None)]] sample_build).2)) = 1
  ∧ rebuildModule_calls (compilation (session
      (seal sample_compile sample_unseal mark_used 2 [[(1, None); (0, None)]] sample_build).2))
      = [10; 11].
Proof.
  split; [eexists; reflexivity |]. split; [by vm_compute |].
  assert (seal sample_compile sample_unseal mark_used 2 [[(1, None); (0, None)]] sample_build =
          (Done, (seal sample_compile sample_unseal mark_used 2 [[(1, None); (0, None)]]
                    sample_build).2)) as Hdone by (vm_compute; reflexivity).
  destruct (completed_build sample_compile sample_unseal mark_used 2 [[(1, None); (0, None)]]
              sample_build _ _ eq_refl eq_refl Hdone) as (_ & Hfinish & _ & Hcalls & _).
  split; [exact Hfinish | exact Hcalls].
Defined.

Lemma build_completes_witness :
  (∃ bundle, This.bundle (this (world sample_build)) = Some bundle
             ∧ sample_compile bundle = Return ("bytecodeBlob", "var data = 1;"))
  ∧ (seal sample_compile sample_unseal mark_used 2 [[(1, None); (0, None); (1, None)]]
       sample_build).1 = Done.
Proof.
  split; [eexists; split; reflexivity |].
  apply (build_completes sample_compile sample_unseal mark_used 0
           [(1, None); (0, None); (1, None)] [] sample_build _
           "bytecodeBlob" "var data = 1;" eq_refl eq_refl eq_refl).
  - repeat constructor.
  - intros i Hi. vm_compute in Hi.
    destruct i as [| [| i]]; [| | lia]; apply (bool_decide_unpack _); reflexivity.
Defined.

Lemma optimize_tree_twice_witness :
  (∃ bundle, This.bundle (this (world sample_build)) = Some bundle
             ∧ sample_compile bundle = Return ("bytecodeBlob", "var data = 1;"))
  ∧ compile_calls (world (optimize_tree sample_compile
                            (optimize_tree sample_compile sample_build).2).2) = 2
  ∧ additional_assets (compilation (session
      (optimize_tree sample_compile (optimize_tree sample_compile sample_build).2).2))
      = ["bytecodeBlob"; "bytecodeBlob"].
Proof.
  split; [eexists; split; reflexivity |].
  pose proof (optimize_tree_twice sample_compile sample_build _
                "bytecodeBlob" "var data = 1;" eq_refl eq_refl eq_refl)
    as (H1 & _ & H2 & _).
  split; [exact H1 | exact H2].
Defined.

(** ** Repeated placeholders *)

(** X16: registering a placeholder more than once changes the number of
    rebuild requests and nothing in the modules: two lists with the same
    members leave the same module contents. *)
Theorem rewrite_ignores_repetition (l1 l2 : list loc) (source : Source) (b : Build) :
  (∀ m, m ∈ l1 ↔ m ∈ l2) →
  mods (world (rewriteDataSegmentModules l1 source b).1.1) =
    mods (world (rewriteDataSegmentModules l2 source b).1.1)
  ∧ length (rebuildModule_calls
              (compilation (session (rewriteDataSegmentModules l1 source b).1.1))) =
      length (rebuildModule_calls (compilation (session b))) + length l1.
Proof.
  intros Hsame. unfold rewriteDataSegmentModules.
  rewrite !populateDataSegment_foldl. cbn. split; [| by rewrite length_app].
  apply map_eq. intros m.
  rewrite !foldl_update_lookup by apply set_table_idem.
  destruct (decide (m ∈ l1)) as [H1 | H1].
  - rewrite decide_True; [done | by apply Hsame].
  - rewrite decide_False; [done |]. intros H2. by apply H1, Hsame.
Qed.

Lemma rewrite_ignores_repetition_witness :
  mods (world (rewriteDataSegmentModules [10; 11; 10] "var data = 1;" sample_build).1.1) =
    mods (world (rewriteDataSegmentModules [11; 10] "var data = 1;" sample_build).1.1).
Proof.
  apply (rewrite_ignores_repetition [10; 11; 10] [11; 10] "var data = 1;" sample_build).
  intros m. rewrite !elem_of_cons, !elem_of_nil. tauto.
Defined.

(** ** Builds in sequence *)

(** X17: every session compiles once, whatever the builds before it did:
    from any state of the instance, once the 'this-compilation' handler has
    returned and the loaders have registered what they found, a run of the
    seal loop with room for two passes ends, and [Bundle.compile] has been
    called exactly once more than before the session. *)
Theorem every_session_compiles_once (compile : Bundle → Result (Source * Source))
    (unseal : gmap string Source → gmap string Source)
    (flag_usage : gmap loc Module_ → gmap loc Module_)
    (new_error : Constructor → DelegateOptions → option Error)
    (inputPath : string) (compilation_ : Compilation) (w w1 : World) (s : Session)
    (ds : list Discovery) (passes : nat) (rebuilds : list (list (nat * option Error))) :
  this_compilation new_error inputPath compilation_ w = (Return s, w1) →
  let r := seal compile unseal flag_usage (S (S passes)) rebuilds
             {| world := discovery ds w1; session := s |} in
  r.1 ≠ Unbounded
  ∧ compile_calls (world r.2) = S (compile_calls w).
Proof.
  intros Hstart r. subst r.
  destruct (this_compilation_Return _ _ _ _ _ _ Hstart) as (_ & _ & _ & _ & Hb & _ & Hr & _).
  destruct (discovery_spec ds w1) as (_ & _ & Hkeep & _ & Hcalls & _).
  destruct (Hkeep Hb) as [bundle Hbundle].
  destruct (seal_two_passes compile unseal flag_usage passes rebuilds
              {| world := discovery ds w1; session := s |} bundle Hr Hbundle)
    as [Hbounded Hcount].
  split; [exact Hbounded |]. rewrite Hcount. cbn [world]. rewrite Hcalls.
  f_equal. unfold this_compilation, reset_dataSegmentModules in Hstart.
  cbn in Hstart. destruct (getBundleFor _ _); [| discriminate].
  by injection Hstart as _ <-.
Qed.

Lemma every_session_compiles_once_witness :
  compile_calls (world (seal sample_compile sample_unseal mark_used 2 [[(0, None); (1, None)]]
                          sample_build).2) = 1
  ∧ compile_calls
      (world (seal sample_compile sample_unseal mark_used 2 []
                {| world := discovery [DataSegmentModule 12]
                     (this_compilation no_error "/app" empty_compilation
                        (world (seal sample_compile sample_unseal mark_used 2
                                  [[(0, None); (1, None)]] sample_build).2)).2;
                   session :=
                     {| compilation := empty_compilation;
                        dataSegmentModules :=
                          This.dataSegmentModules
                            (this (this_compilation no_error "/app" empty_compilation
                               (world (seal sample_compile sample_unseal mark_used 2
                                         [[(0, None); (1, None)]] sample_build).2)).2);
                        resealed := false |} |}).2) = 2.
Proof.
  split; [by vm_compute |].
  apply (every_session_compiles_once sample_compile sample_unseal mark_used
           no_error "/app"
           empty_compilation
           (world (seal sample_compile sample_unseal mark_used 2 [[(0, None); (1, None)]]
                     sample_build).2)
           _ _ [DataSegmentModule 12] 0 []).
  vm_compute. reflexivity.
Defined.

(** With a host that marks every module as used on each pass, the completed
    build ends with the marks the second pass computed, and the placeholders
    still hold the data segment. *)
Example scenario_usage_recomputed :
  let r := seal sample_compile sample_unseal mark_used 2 [[(1, None); (0, None)]]
             sample_build in
  r.1 = Done
  ∧ used <$> mods (world r.2) !! 10 = Some (Some true)
  ∧ used <$> mods (world r.2) !! 12 = Some (Some true)
  ∧ __table <$> mods (world r.2) !! 10 = Some (Some "var data = 1;")
  ∧ used <$> mods (world (need_additional_seal_handler
                            (optimize_tree sample_compile sample_build).2).2) !! 12
      = Some None.
Proof. vm_compute. repeat split. Qed.
